(** * Newsight frontend: the zustand stores of [frontend/src/store/index.ts]

    A shallow embedding of the search store ([useSearchStore]) and of the
    question-answering store ([useRAGStore]), with the types they use from
    [frontend/src/types/index.ts].

    - A store state is a record; zustand's [set(partial)] merges the keys
      of an object literal into the state, modelled as a list of field
      assignments applied in order.
    - An [async] action is a program over [get], [set] and one awaited
      call of [searchApi]; the code between two suspension points runs
      without interruption (JavaScript's run-to-completion), the awaited
      call settles later, fulfilled or rejected, while other actions may
      have changed the store in between.
    - JavaScript numbers that count (offsets, totals, ids) are integers
      [Z]; [confidence] is a binary64 float.

    With them come the application store ([useAppStore]) of the same
    file and the components that sit around the stores: the search bar
    ([components/SearchBar.tsx]), the article list
    ([components/ArticleList.tsx]) and the home page ([app/page.tsx]),
    whose local state is carried beside the store it writes to. *)

From Stdlib Require Import ZArith List String Ascii Bool Lia Floats.
Import ListNotations.
Open Scope string_scope.
Open Scope list_scope.
Open Scope Z_scope.

(* ================================================================== *)
(** ** Types of [types/index.ts] *)

Module Article.
Record t : Type := mk {
  id : Z;
  title : string;
  content : string;
  summary : option string;
  url : string;
  published_date : string;
  author : option string;
  source : option string;
  category : option string;
  image_url : option string;
  tags : list string;
  created_at : string;
  updated_at : string
}.
End Article.

Module SearchRequest.
Record t : Type := mk {
  query : string;
  limit : option Z;
  offset : option Z
}.
End SearchRequest.

Module SearchResponse.
Record t : Type := mk {
  results : list Article.t;
  total : Z;
  query : string;
  took_ms : Z
}.
End SearchResponse.

Module RAGRequest.
Record t : Type := mk {
  question : string;
  max_articles : option Z;
  include_sources : option bool
}.
End RAGRequest.

Module RAGResponse.
Record t : Type := mk {
  answer : string;
  sources : list Article.t;
  confidence : float;
  took_ms : Z
}.
End RAGResponse.

Module SearchState.
Record t : Type := mk {
  query : string;
  results : list Article.t;
  loading : bool;
  error : option string;
  hasMore : bool;
  total : Z
}.
End SearchState.

Module RAGState.
Record t : Type := mk {
  question : string;
  answer : option string;
  sources : list Article.t;
  loading : bool;
  error : option string;
  confidence : float
}.
End RAGState.

Module ApiError.
Record t : Type := mk {
  message : string;
  status : Z;
  code : option string
}.
End ApiError.

(* ================================================================== *)
(** ** What [lib/api.ts] provides to the stores *)

(** Modelled from the spec: the values a rejected [searchApi] call throws
    and the type guard [isApiError] of [lib/api.ts], which is not part of
    the sources.  The spec says a failure "is normalized to a single error
    value carrying an optional message string": a thrown value either is
    an [ApiError] (it carries a message) or is anything else. *)
Inductive thrown : Type :=
| ThrownApiError (e : ApiError.t)
| ThrownOther.

(** The guard narrows [error] to [ApiError] when it answers true. *)
Definition isApiError (error : thrown) : option ApiError.t :=
  match error with
  | ThrownApiError e => Some e
  | ThrownOther => None
  end.

(** The calls of [searchApi] that the stores make: two for the search
    store, one for the question-answering store. *)
Inductive searchApiCall : Type :=
| keywordSearchCall (req : SearchRequest.t)
| semanticSearchCall (req : SearchRequest.t).

Inductive ragApiCall : Type :=
| ragSearchCall (req : RAGRequest.t).

(** How an awaited promise settles: [await] returns the value, or the
    surrounding [try] catches what was thrown. *)
Inductive settled (R : Type) : Type :=
| Fulfilled (response : R)
| Rejected (error : thrown).
Arguments Fulfilled {R} response.
Arguments Rejected {R} error.

(** A parameter with a default value: [offset: number = 0]. *)
Definition defaultArg {A : Type} (d : A) (arg : option A) : A :=
  match arg with
  | Some a => a
  | None => d
  end.

(* ================================================================== *)
(** ** Store programs *)

Module Async.
Section Programs.
(** [S]: store state, [P]: the partial object given to [set],
    [Q]: awaited calls, [R]: what a fulfilled call returns. *)
Context {S P Q R : Type}.

Inductive async (A : Type) : Type :=
| Ret (a : A)
| GetState (k : S -> async A)
| SetState (partial : P) (k : async A)
| Await (call : Q) (k : settled R -> async A).

Arguments Ret {A} a.
Arguments GetState {A} k.
Arguments SetState {A} partial k.
Arguments Await {A} call k.

Fixpoint bind {A B : Type} (m : async A) (f : A -> async B) : async B :=
  match m with
  | Ret a => f a
  | GetState k => GetState (fun s => bind (k s) f)
  | SetState p k => SetState p (bind k f)
  | Await c k => Await c (fun o => bind (k o) f)
  end.

Definition get : async S := GetState (fun s => Ret s).
Definition set (partial : P) : async unit := SetState partial (Ret tt).
Definition tryAwait (call : Q) : async (settled R) := Await call (fun o => Ret o).

(** zustand's merge of a partial object into the state. *)
Variable merge : S -> P -> S.

(** A suspended call: the request in flight and the rest of the
    action, waiting for the call to settle. *)
Definition pending (A : Type) : Type := (Q * (settled R -> async A))%type.

(** Run a program from store state [s] up to its end or to its first
    [await]. *)
Fixpoint advance {A : Type} (m : async A) (s : S) : S * option (pending A) :=
  match m with
  | Ret _ => (s, None)
  | GetState k => advance (k s) s
  | SetState p k => advance k (merge s p)
  | Await c k => (s, Some (c, k))
  end.

(** The store right after the action was called (request issued). *)
Definition issued {A : Type} (m : async A) (s : S) : S := fst (advance m s).

(** The call the action leaves in flight, if any. *)
Definition request {A : Type} (m : async A) (s : S) : option Q :=
  option_map fst (snd (advance m s)).

(** The store after the call of action [m], made in state [s], settles
    with [o] while the store is in state [now]. *)
Definition settle {A : Type} (m : async A) (s : S) (o : settled R) (now : S) : S :=
  match snd (advance m s) with
  | Some (_, k) => fst (advance (k o) now)
  | None => now
  end.

(** The action run alone: nothing touches the store between the call
    and its settlement. *)
Definition complete {A : Type} (m : async A) (s : S) (o : settled R) : S :=
  settle m s o (issued m s).

(** Every [set] of the program keeps [I]. *)
Fixpoint keeps (I : S -> Prop) {A : Type} (m : async A) : Prop :=
  match m with
  | Ret _ => True
  | GetState k => forall s, keeps I (k s)
  | SetState p k => (forall s, I s -> I (merge s p)) /\ keeps I k
  | Await _ k => forall o, keeps I (k o)
  end.

(** What remains of a suspended action keeps [I], however it settles. *)
Definition waitingKeeps (I : S -> Prop) (p : pending unit) : Prop :=
  forall o, keeps I (snd p o).

(** *** The store with its calls in flight *)

Record config : Type := mkConfig {
  store : S;
  inflight : list (pending unit)
}.

Definition enqueue (t : option (pending unit)) (l : list (pending unit)) :=
  match t with
  | Some p => l ++ [p]
  | None => l
  end.

(** [actions]: the programs a caller may start. *)
Variable actions : async unit -> Prop.

Inductive step : config -> config -> Prop :=
| step_call (c : config) (m : async unit) :
    actions m ->
    step c (mkConfig (fst (advance m (store c)))
                     (enqueue (snd (advance m (store c))) (inflight c)))
| step_settle (s : S) (before after : list (pending unit))
              (call : Q) (k : settled R -> async unit) (o : settled R) :
    step (mkConfig s (before ++ (call, k) :: after))
         (mkConfig (fst (advance (k o) s))
                   (enqueue (snd (advance (k o) s)) (before ++ after))).

Inductive reachable (init : S) : config -> Prop :=
| reach_init : reachable init (mkConfig init [])
| reach_step (c c' : config) : reachable init c -> step c c' -> reachable init c'.

End Programs.

Arguments async : clear implicits.
Arguments Ret {S P Q R A} a.
Arguments GetState {S P Q R A} k.
Arguments SetState {S P Q R A} partial k.
Arguments Await {S P Q R A} call k.
Arguments pending : clear implicits.
Arguments config : clear implicits.

Declare Scope async_scope.
Delimit Scope async_scope with async.
Notation "x <- m ;; k" := (bind m (fun x => k))
(at level 61, m at next level, right associativity) : async_scope.
Notation "m ;; k" := (bind m (fun _ => k))
(at level 61, right associativity) : async_scope.
End Async.

Import Async.
Local Open Scope async_scope.

(* ================================================================== *)
(** ** [useSearchStore] *)

Module useSearchStore.
Import SearchState.

(** One key of the object literal given to [set]. *)
Inductive key : Type :=
| query_ (v : string)
| results_ (v : list Article.t)
| loading_ (v : bool)
| error_ (v : option string)
| hasMore_ (v : bool)
| total_ (v : Z).

Definition assign (s : SearchState.t) (k : key) : SearchState.t :=
  match k with
  | query_ v => mk v (results s) (loading s) (error s) (hasMore s) (total s)
  | results_ v => mk (query s) v (loading s) (error s) (hasMore s) (total s)
  | loading_ v => mk (query s) (results s) v (error s) (hasMore s) (total s)
  | error_ v => mk (query s) (results s) (loading s) v (hasMore s) (total s)
  | hasMore_ v => mk (query s) (results s) (loading s) (error s) v (total s)
  | total_ v => mk (query s) (results s) (loading s) (error s) (hasMore s) v
  end.

(** [set(partial)]: the keys of [partial] overwrite those of the state. *)
Definition merge (s : SearchState.t) (partial : list key) : SearchState.t :=
  fold_left assign partial s.

Definition action : Type :=
  async SearchState.t (list key) searchApiCall SearchResponse.t unit.

(** The initial state (lines 20-25). *)
Definition initial : SearchState.t :=
  {| query := ""; results := []; loading := false; error := None;
     hasMore := true; total := 0 |}.

Definition setQuery (query : string) : action :=
  set [query_ query].

Definition setResults (results : list Article.t) : action :=
  set [results_ results].

Definition keywordSearch (query : string) (offset_arg : option Z) : action :=
  let offset := defaultArg 0 offset_arg in
  currentResults <-
    (if 0 <? offset then s <- get ;; Ret (results s) else Ret []) ;;
  set [ loading_ true;
        error_ None;
        query_ query;
        results_ (if offset =? 0 then [] else currentResults) ] ;;
  settlement <- tryAwait (keywordSearchCall
                  {| SearchRequest.query := query;
                     SearchRequest.limit := Some 20;
                     SearchRequest.offset := Some offset |}) ;;
  match settlement with
  | Fulfilled response =>
      set [ results_ (if offset =? 0 then SearchResponse.results response
                      else currentResults ++ SearchResponse.results response);
            total_ (SearchResponse.total response);
            hasMore_ (offset + Z.of_nat (List.length (SearchResponse.results response))
                        <? SearchResponse.total response);
            loading_ false ]
  | Rejected error =>
      let errorMessage :=
        match isApiError error with
        | Some e => ApiError.message e
        | None => "검색 중 오류가 발생했습니다."
        end in
      set [ error_ (Some errorMessage);
            loading_ false;
            hasMore_ false ]
  end.

Definition semanticSearch (query : string) (offset_arg : option Z) : action :=
  let offset := defaultArg 0 offset_arg in
  currentResults <-
    (if 0 <? offset then s <- get ;; Ret (results s) else Ret []) ;;
  set [ loading_ true;
        error_ None;
        query_ query;
        results_ (if offset =? 0 then [] else currentResults) ] ;;
  settlement <- tryAwait (semanticSearchCall
                  {| SearchRequest.query := query;
                     SearchRequest.limit := Some 20;
                     SearchRequest.offset := Some offset |}) ;;
  match settlement with
  | Fulfilled response =>
      set [ results_ (if offset =? 0 then SearchResponse.results response
                      else currentResults ++ SearchResponse.results response);
            total_ (SearchResponse.total response);
            hasMore_ (offset + Z.of_nat (List.length (SearchResponse.results response))
                        <? SearchResponse.total response);
            loading_ false ]
  | Rejected error =>
      let errorMessage :=
        match isApiError error with
        | Some e => ApiError.message e
        | None => "시맨틱 검색 중 오류가 발생했습니다."
        end in
      set [ error_ (Some errorMessage);
            loading_ false;
            hasMore_ false ]
  end.

Definition clearResults : action :=
  set [ results_ []; total_ 0; hasMore_ true; error_ None ].

Definition clearError : action :=
  set [ error_ None ].

(** The spec's [search(kind, query, offset)]. *)
Inductive kind : Type := keyword | semantic.

Definition search (k : kind) : string -> option Z -> action :=
  match k with
  | keyword => keywordSearch
  | semantic => semanticSearch
  end.

Definition endpoint (k : kind) : SearchRequest.t -> searchApiCall :=
  match k with
  | keyword => keywordSearchCall
  | semantic => semanticSearchCall
  end.

Definition fallback (k : kind) : string :=
  match k with
  | keyword => "검색 중 오류가 발생했습니다."
  | semantic => "시맨틱 검색 중 오류가 발생했습니다."
  end.

(** A synchronous action run to its end. *)
Definition run (m : action) (s : SearchState.t) : SearchState.t :=
  issued merge m s.

(** What a caller of the store may start. *)
Inductive callable : action -> Prop :=
| call_setQuery q : callable (setQuery q)
| call_setResults rs : callable (setResults rs)
| call_keywordSearch q o : callable (keywordSearch q o)
| call_semanticSearch q o : callable (semanticSearch q o)
| call_clearResults : callable clearResults
| call_clearError : callable clearError.

Definition reachable : config SearchState.t (list key) searchApiCall SearchResponse.t -> Prop :=
  Async.reachable merge callable initial.

(** [loading] and [error] exclude each other. *)
Definition exclusive (s : SearchState.t) : Prop :=
  loading s = true -> error s = None.
End useSearchStore.

(* ================================================================== *)
(** ** [useRAGStore] *)

Module useRAGStore.
Import RAGState.

Inductive key : Type :=
| question_ (v : string)
| answer_ (v : option string)
| sources_ (v : list Article.t)
| loading_ (v : bool)
| error_ (v : option string)
| confidence_ (v : float).

Definition assign (s : RAGState.t) (k : key) : RAGState.t :=
  match k with
  | question_ v => mk v (answer s) (sources s) (loading s) (error s) (confidence s)
  | answer_ v => mk (question s) v (sources s) (loading s) (error s) (confidence s)
  | sources_ v => mk (question s) (answer s) v (loading s) (error s) (confidence s)
  | loading_ v => mk (question s) (answer s) (sources s) v (error s) (confidence s)
  | error_ v => mk (question s) (answer s) (sources s) (loading s) v (confidence s)
  | confidence_ v => mk (question s) (answer s) (sources s) (loading s) (error s) v
  end.

Definition merge (s : RAGState.t) (partial : list key) : RAGState.t :=
  fold_left assign partial s.

Definition action : Type :=
  async RAGState.t (list key) ragApiCall RAGResponse.t unit.

(** The initial state (lines 133-138). *)
Definition initial : RAGState.t :=
  {| question := ""; answer := None; sources := []; loading := false;
     error := None; confidence := 0%float |}.

Definition setQuestion (question : string) : action :=
  set [question_ question].

Definition askQuestion (question : string) (maxArticles_arg : option Z) : action :=
  let maxArticles := defaultArg 5 maxArticles_arg in
  set [ loading_ true;
        error_ None;
        question_ question;
        answer_ None;
        sources_ [];
        confidence_ 0%float ] ;;
  settlement <- tryAwait (ragSearchCall
                  {| RAGRequest.question := question;
                     RAGRequest.max_articles := Some maxArticles;
                     RAGRequest.include_sources := Some true |}) ;;
  match settlement with
  | Fulfilled response =>
      set [ answer_ (Some (RAGResponse.answer response));
            sources_ (RAGResponse.sources response);
            confidence_ (RAGResponse.confidence response);
            loading_ false ]
  | Rejected error =>
      let errorMessage :=
        match isApiError error with
        | Some e => ApiError.message e
        | None => "AI 답변 생성 중 오류가 발생했습니다."
        end in
      set [ error_ (Some errorMessage);
            loading_ false ]
  end.

Definition clearAnswer : action :=
  set [ answer_ None; sources_ []; confidence_ 0%float; error_ None ].

Definition clearError : action :=
  set [ error_ None ].

Definition fallback : string := "AI 답변 생성 중 오류가 발생했습니다.".

Definition run (m : action) (s : RAGState.t) : RAGState.t :=
  issued merge m s.
End useRAGStore.

(* ================================================================== *)
(** ** Blank input, as the callers test it *)

(** [SearchBar.handleSubmit] and [HomePage.handleSearch] test
    [query.trim()] before they search: text is blank when trimming leaves
    nothing, that is when every character is white space.  The white
    space of [String.prototype.trim] within ASCII: TAB, LF, VT, FF, CR and
    the space. *)
Definition isWhiteSpace (c : ascii) : bool :=
  let n := nat_of_ascii c in
  ((9 <=? n)%nat && (n <=? 13)%nat) || (n =? 32)%nat.

Fixpoint blank (s : string) : bool :=
  match s with
  | EmptyString => true
  | String c rest => isWhiteSpace c && blank rest
  end.

(* ================================================================== *)
(** ** Sample data *)

Module Sample.
Definition article (id : Z) (title : string) : Article.t :=
  {| Article.id := id; Article.title := title; Article.content := "";
     Article.summary := None; Article.url := "https://example.org/a";
     Article.published_date := "2024-01-01"; Article.author := None;
     Article.source := None; Article.category := None;
     Article.image_url := None; Article.tags := ["ai"];
     Article.created_at := "2024-01-01"; Article.updated_at := "2024-01-01" |}.

Definition first : Article.t := article 1 "first".
Definition second : Article.t := article 2 "second".

(** Two pages of one, of a total of two. *)
Definition page1 : SearchResponse.t :=
  {| SearchResponse.results := [first]; SearchResponse.total := 2;
     SearchResponse.query := "AI"; SearchResponse.took_ms := 3 |}.
Definition page2 : SearchResponse.t :=
  {| SearchResponse.results := [second]; SearchResponse.total := 2;
     SearchResponse.query := "AI"; SearchResponse.took_ms := 3 |}.

(** The store after the first page was loaded and shown. *)
Definition afterPage1 : SearchState.t :=
  complete useSearchStore.merge
    (useSearchStore.keywordSearch "AI" (Some 0)) useSearchStore.initial
    (Fulfilled page1).

(** ... and after the second page was appended. *)
Definition afterPage2 : SearchState.t :=
  complete useSearchStore.merge
    (useSearchStore.keywordSearch "AI" (Some 1)) afterPage1
    (Fulfilled page2).

Definition timeout : thrown :=
  ThrownApiError {| ApiError.message := "timeout of 30000ms exceeded";
                    ApiError.status := 0; ApiError.code := None |}.

(** The store while a first search is in flight. *)
Definition searching :
  config SearchState.t (list useSearchStore.key) searchApiCall SearchResponse.t :=
  let m := useSearchStore.keywordSearch "AI" None in
  mkConfig (fst (advance useSearchStore.merge m useSearchStore.initial))
           (enqueue (snd (advance useSearchStore.merge m useSearchStore.initial)) []).
End Sample.

(* ================================================================== *)
(** ** Calls in flight *)

Module InFlight.
(** What remains of a suspended action ends the loading and awaits
    nothing more. *)
Definition searchEnds
           (p : pending SearchState.t (list useSearchStore.key)
                        searchApiCall SearchResponse.t unit) : Prop :=
  forall o s,
    SearchState.loading (fst (advance useSearchStore.merge (snd p o) s)) = false /\
    snd (advance useSearchStore.merge (snd p o) s) = None.

(** [loading] is backed by a call in flight. *)
Definition searchBacked
           (c : config SearchState.t (list useSearchStore.key)
                       searchApiCall SearchResponse.t) : Prop :=
  (SearchState.loading (store c) = true -> inflight c <> []) /\
  Forall searchEnds (inflight c).

(** What a caller of the question-answering store may start. *)
Inductive ragCallable : useRAGStore.action -> Prop :=
| call_setQuestion q : ragCallable (useRAGStore.setQuestion q)
| call_askQuestion q o : ragCallable (useRAGStore.askQuestion q o)
| call_clearAnswer : ragCallable useRAGStore.clearAnswer
| call_clearError : ragCallable useRAGStore.clearError.

Definition ragReachable :
  config RAGState.t (list useRAGStore.key) ragApiCall RAGResponse.t -> Prop :=
  Async.reachable useRAGStore.merge ragCallable useRAGStore.initial.

(** While a question is loading nothing of an older answer shows. *)
Definition ragReset (s : RAGState.t) : Prop :=
  RAGState.loading s = true ->
  RAGState.error s = None /\
  RAGState.answer s = None /\
  RAGState.sources s = [] /\
  RAGState.confidence s = 0%float.

(** The question-answering store while a question is in flight. *)
Definition asking :
  config RAGState.t (list useRAGStore.key) ragApiCall RAGResponse.t :=
  let m := useRAGStore.askQuestion "what is RAG?" None in
  mkConfig (fst (advance useRAGStore.merge m useRAGStore.initial))
           (enqueue (snd (advance useRAGStore.merge m useRAGStore.initial)) []).
End InFlight.

(* ================================================================== *)
(** ** [useAppStore] *)

Module AppState.
Inductive Theme : Type := light | dark.

Record t : Type := mk {
  sidebarOpen : bool;
  theme : Theme
}.
End AppState.

Module useAppStore.
Import AppState.

Inductive key : Type :=
| sidebarOpen_ (v : bool)
| theme_ (v : Theme).

Definition assign (s : AppState.t) (k : key) : AppState.t :=
  match k with
  | sidebarOpen_ v => mk v (theme s)
  | theme_ v => mk (sidebarOpen s) v
  end.

Definition merge (s : AppState.t) (partial : list key) : AppState.t :=
  fold_left assign partial s.

(** The store awaits nothing. *)
Definition action : Type :=
  async AppState.t (list key) Empty_set unit unit.

(** The initial state (lines 214-215). *)
Definition initial : AppState.t :=
  {| sidebarOpen := false; theme := light |}.

Definition toggleSidebar : action :=
  s <- get ;;
  set [sidebarOpen_ (negb (sidebarOpen s))].

Definition setSidebarOpen (open : bool) : action :=
  set [sidebarOpen_ open].

Definition setTheme (theme : Theme) : action :=
  set [theme_ theme].

Definition toggleTheme : action :=
  s <- get ;;
  let newTheme := match theme s with light => dark | dark => light end in
  set [theme_ newTheme].

(** [partialize]: the part of the state that [persist] writes to
    storage, the object [{ theme: state.theme }]. *)
Definition partialize (state : AppState.t) : list key :=
  [theme_ (theme state)].

(** Starting again: [persist] merges what was stored over the initial
    state (zustand's default, shallow merge). *)
Definition rehydrate (persisted : list key) : AppState.t :=
  merge initial persisted.

Definition run (m : action) (s : AppState.t) : AppState.t :=
  issued merge m s.

Inductive callable : action -> Prop :=
| call_toggleSidebar : callable toggleSidebar
| call_setSidebarOpen b : callable (setSidebarOpen b)
| call_setTheme t : callable (setTheme t)
| call_toggleTheme : callable toggleTheme.

(** The state after a sequence of actions. *)
Definition runAll (ms : list action) (s : AppState.t) : AppState.t :=
  fold_left (fun st m => run m st) ms s.
End useAppStore.

(* ================================================================== *)
(** ** JavaScript strings: truthiness and [trim] *)

Module JSString.
(** Text is held as its UTF-8 bytes.  [String.prototype.trim] removes
    the code points of WhiteSpace and LineTerminator from both ends:
    TAB, LF, VT, FF, CR, SP, U+00A0, U+1680, U+2000 to U+200A, U+2028,
    U+2029, U+202F, U+205F, U+3000 and U+FEFF, here by their encodings. *)
Definition bytes (l : list nat) : string :=
  string_of_list_ascii (map ascii_of_nat l).

Definition whiteSpace : list string :=
  [ bytes [9]; bytes [10]; bytes [11]; bytes [12]; bytes [13]; bytes [32];
    bytes [194; 160];
    bytes [225; 154; 128];
    bytes [226; 128; 128]; bytes [226; 128; 129]; bytes [226; 128; 130];
    bytes [226; 128; 131]; bytes [226; 128; 132]; bytes [226; 128; 133];
    bytes [226; 128; 134]; bytes [226; 128; 135]; bytes [226; 128; 136];
    bytes [226; 128; 137]; bytes [226; 128; 138];
    bytes [226; 128; 168]; bytes [226; 128; 169]; bytes [226; 128; 175];
    bytes [226; 129; 159];
    bytes [227; 128; 128];
    bytes [239; 187; 191] ]%nat.

(** [s] without its prefix [p], when it starts with [p]. *)
Fixpoint stripPrefix (p s : string) : option string :=
  match p with
  | EmptyString => Some s
  | String a p' =>
      match s with
      | EmptyString => None
      | String b s' => if Ascii.eqb a b then stripPrefix p' s' else None
      end
  end.

Fixpoint stripAny (ps : list string) (s : string) : option string :=
  match ps with
  | [] => None
  | p :: ps' =>
      match stripPrefix p s with
      | Some rest => Some rest
      | None => stripAny ps' s
      end
  end.

(** [s] without its first character, when that is white space. *)
Definition stripWhiteSpace (s : string) : option string :=
  stripAny whiteSpace s.

Fixpoint trimStartWithin (steps : nat) (s : string) : string :=
  match steps with
  | O => s
  | S steps' =>
      match stripWhiteSpace s with
      | Some rest => trimStartWithin steps' rest
      | None => s
      end
  end.

(** No more characters can be removed than the string has bytes. *)
Definition trimStart (s : string) : string :=
  trimStartWithin (String.length s) s.

(** Falsy is the empty string. *)
Definition truthy (s : string) : bool :=
  match s with
  | EmptyString => false
  | String _ _ => true
  end.

Definition allWhiteSpace (s : string) : bool :=
  negb (truthy (trimStart s)).

(** The longest suffix of white space is what [trimEnd] removes. *)
Fixpoint trimEnd (s : string) : string :=
  match s with
  | EmptyString => EmptyString
  | String c rest => if allWhiteSpace s then EmptyString else String c (trimEnd rest)
  end.

Definition trim (s : string) : string :=
  trimEnd (trimStart s).

(** No white space is a proper prefix of another. *)
Fixpoint prefixFree (ps : list string) : bool :=
  match ps with
  | [] => true
  | p :: ps' =>
      forallb (fun q => match stripPrefix p q, stripPrefix q p with
                        | None, None => true
                        | _, _ => false
                        end) ps'
      && prefixFree ps'
  end.
End JSString.

(* ================================================================== *)
(** ** [SearchBar] (components/SearchBar.tsx) *)

Module SearchBar.
Import JSString.

(** [handleSubmit]: what is passed to [onSearch], if it is called, for
    the text [query] in the input field. *)
Definition handleSubmit (query : string) : option string :=
  if truthy (trim query) then Some (trim query) else None.
End SearchBar.

(* ================================================================== *)
(** ** [ArticleList] (components/ArticleList.tsx) *)

Module ArticleList.
Import JSString.

Record Props (H : Type) : Type := mkProps {
  articles : list Article.t;
  loading : option bool;
  error : option string;
  onLoadMore : option H;
  hasMore : option bool;
  loadingMore : option bool
}.
Arguments mkProps {H}.
Arguments articles {H}.
Arguments loading {H}.
Arguments error {H}.
Arguments onLoadMore {H}.
Arguments hasMore {H}.
Arguments loadingMore {H}.

Inductive SpinnerSize : Type := xs | sm | md | lg | xl.

(** An [ArticleCard] with its React key. *)
Record Card : Type := mkCard {
  key : Z;
  article : Article.t
}.

Inductive Label : Type :=
| LoadingLabel (spinner : SpinnerSize)
| MoreLabel.

Record Button (H : Type) : Type := mkButton {
  onClick : H;
  disabled : bool;
  label : Label
}.
Arguments mkButton {H}.
Arguments onClick {H}.
Arguments disabled {H}.
Arguments label {H}.

(** What the component returns. *)
Inductive Rendered (H : Type) : Type :=
| LoadingView (spinner : SpinnerSize)
| ErrorView (error : string)
| EmptyView
| ListView (cards : list Card) (more : option (Button H))
           (moreSpinner : option SpinnerSize).
Arguments LoadingView {H}.
Arguments ErrorView {H}.
Arguments EmptyView {H}.
Arguments ListView {H}.

Definition ArticleList {H : Type} (props : Props H) : Rendered H :=
  let loading := defaultArg false (loading props) in
  let hasMore := defaultArg false (hasMore props) in
  let loadingMore := defaultArg false (loadingMore props) in
  if loading then LoadingView lg
  else
    match error props with
    | Some (String c rest) => ErrorView (String c rest)
    | _ =>
        if (List.length (articles props) =? 0)%nat then EmptyView
        else
          ListView
            (map (fun a => mkCard (Article.id a) a) (articles props))
            (if hasMore then
               match onLoadMore props with
               | Some h =>
                   Some (mkButton h loadingMore
                           (if loadingMore then LoadingLabel sm else MoreLabel))
               | None => None
               end
             else None)
            (if loadingMore then Some md else None)
    end.

(** The "more" button of what is rendered, if there is one. *)
Definition moreButton {H : Type} (r : Rendered H) : option (Button H) :=
  match r with
  | ListView _ more _ => more
  | _ => None
  end.
End ArticleList.

(* ================================================================== *)
(** ** [HomePage] (app/page.tsx) *)

Module HomePage.
Import JSString.

(** The component's own state and the search store it writes to. *)
Record state : Type := mk {
  searchQuery : string;
  isSearching : bool;
  store : SearchState.t
}.

Inductive update : Type :=
| setIsSearching (v : bool)
| setSearchQuery (v : string)
| callStore (m : useSearchStore.action).

Definition apply (s : state) (u : update) : state :=
  match u with
  | setIsSearching v => mk (searchQuery s) v (store s)
  | setSearchQuery v => mk v (isSearching s) (store s)
  | callStore m => mk (searchQuery s) (isSearching s) (useSearchStore.run m (store s))
  end.

(** What [refetch()] resolves to, as far as [handleSearch] reads it:
    [result.data?.results]. *)
Record QueryData : Type := mkData {
  results : option (list Article.t)
}.

Record QueryResult : Type := mkResult {
  data : option QueryData
}.

Inductive call : Type := refetch.

Definition action : Type := async state update call QueryResult unit.

Definition initial : state :=
  {| searchQuery := ""; isSearching := false; store := useSearchStore.initial |}.

Definition handleSearch (query : string) : action :=
  if negb (truthy (trim query)) then Ret tt
  else
    set (setIsSearching true) ;;
    set (setSearchQuery query) ;;
    set (callStore (useSearchStore.setQuery query)) ;;
    settlement <- tryAwait refetch ;;
    match settlement with
    | Fulfilled result =>
        match match data result with
              | Some d => results d
              | None => None
              end with
        | Some found => set (callStore (useSearchStore.setResults found))
        | None => Ret tt
        end
    | Rejected error => Ret tt
    end ;;
    set (setIsSearching false).
End HomePage.

(* ================================================================== *)
(** ** Sample props *)

Module ListSample.
(** A loaded first page with more to come, and a handler to load it. *)
Definition paging : ArticleList.Props string :=
  ArticleList.mkProps [Sample.first] None None (Some "loadMore") (Some true) None.

(** A failed search. *)
Definition failed : ArticleList.Props string :=
  ArticleList.mkProps [] (Some false) (Some "Network Error") None None None.
End ListSample.

(* ================================================================== *)
(** ** Overlapping calls *)

Module Overlap.
(** *** Two questions, the first still in flight when the second is
    answered *)

Definition first : useRAGStore.action :=
  useRAGStore.askQuestion "what is RAG?" None.

Definition second : useRAGStore.action :=
  useRAGStore.askQuestion "what is an LLM?" None.

Definition reply : RAGResponse.t :=
  {| RAGResponse.answer := "A large language model.";
     RAGResponse.sources := [Sample.second];
     RAGResponse.confidence := 1%float;
     RAGResponse.took_ms := 40 |}.

Definition asked1 : RAGState.t :=
  issued useRAGStore.merge first useRAGStore.initial.

Definition asked2 : RAGState.t :=
  issued useRAGStore.merge second asked1.

(** The second question is answered ... *)
Definition answered2 : RAGState.t :=
  settle useRAGStore.merge second asked1 (Fulfilled reply) asked2.

(** ... and then the first one fails. *)
Definition failed1 : RAGState.t :=
  settle useRAGStore.merge first useRAGStore.initial
         (Rejected Sample.timeout) answered2.

(** *** A question retyped while the first is in flight *)

Definition retyped : RAGState.t :=
  useRAGStore.run (useRAGStore.setQuestion "what is an LLM?") asked1.

Definition answered1 : RAGState.t :=
  settle useRAGStore.merge first useRAGStore.initial (Fulfilled reply) retyped.

(** *** Two searches from a loaded first page, the first still in
    flight when the second is fulfilled *)



Definition found : SearchResponse.t :=
  {| SearchResponse.results := [Sample.second]; SearchResponse.total := 7;
     SearchResponse.query := "RAG"; SearchResponse.took_ms := 5 |}.




End Overlap.

(* ================================================================== *)
(** ** Facts about store programs *)

Section AsyncFacts.
Context {S P Q R : Type} (merge : S -> P -> S) (I : S -> Prop).
Variable actions : async S P Q R unit -> Prop.
Hypothesis actions_keep : forall m, actions m -> keeps merge I m.

(** A program whose [set]s keep [I] keeps it up to its suspension, and
    so does what remains of it. *)
Lemma keeps_advance {A : Type} (m : async S P Q R A) :
  keeps merge I m ->
  forall s, I s ->
    I (fst (advance merge m s)) /\
    match snd (advance merge m s) with
    | Some (_, k) => forall o, keeps merge I (k o)
    | None => True
    end.
Proof.
  induction m as [a | k IH | p k IH | c k IH]; cbn; intros Hk s Hs.
  - split; [exact Hs | exact Logic.I].
  - apply IH; [apply Hk | exact Hs].
  - destruct Hk as [Hp Hk]. apply IH; [exact Hk | apply Hp, Hs].
  - split; [exact Hs | exact Hk].
Qed.

Lemma enqueue_keeps (t : option (pending S P Q R unit)) l :
  match t with Some (_, k) => forall o, keeps merge I (k o) | None => True end ->
  Forall (waitingKeeps merge I) l ->
  Forall (waitingKeeps merge I) (enqueue t l).
Proof.
  destruct t as [[c k] |]; cbn; intros Ht Hl; [| exact Hl].
  apply Forall_app; split; [exact Hl |].
  constructor; [exact Ht | constructor].
Qed.

Lemma step_keeps (c c' : config S P Q R) :
  step merge actions c c' ->
  I (store c) /\ Forall (waitingKeeps merge I) (inflight c) ->
  I (store c') /\ Forall (waitingKeeps merge I) (inflight c').
Proof.
  intros Hstep [Hs Hl].
  destruct Hstep as [c m Hm | s before after call k o]; cbn in *.
  - destruct (keeps_advance m (actions_keep m Hm) (store c) Hs) as [H1 H2].
    split; [exact H1 | apply enqueue_keeps; assumption].
  - apply Forall_app in Hl. destruct Hl as [Hb Ha].
    inversion Ha as [| x l Hx Ha' ]; subst.
    destruct (keeps_advance (k o) (Hx o) s Hs) as [H1 H2].
    split; [exact H1 |].
    apply enqueue_keeps; [exact H2 |].
    apply Forall_app; split; assumption.
Qed.

(** An invariant of every [set] is an invariant of the store, however
    calls and settlements interleave. *)
Lemma reachable_keeps (init : S) (c : config S P Q R) :
  I init ->
  reachable merge actions init c ->
  I (store c) /\ Forall (waitingKeeps merge I) (inflight c).
Proof.
  intros Hinit Hreach.
  induction Hreach as [| c c' _ IH Hstep].
  - split; [exact Hinit | constructor].
  - exact (step_keeps c c' Hstep IH).
Qed.
End AsyncFacts.

(* ================================================================== *)
(** ** The search store *)

Module SearchFacts.
Import SearchState useSearchStore.

(** Both searches leave their request in flight: query, limit 20 and
    the offset. *)
Lemma search_request (k : kind) (q : string) (o : option Z) (st : SearchState.t) :
  request merge (search k q o) st =
    Some (endpoint k {| SearchRequest.query := q;
                        SearchRequest.limit := Some 20;
                        SearchRequest.offset := Some (defaultArg 0 o) |}).
Proof.
  destruct k; unfold search, keywordSearch, semanticSearch, request;
    cbn; destruct (0 <? defaultArg 0 o); reflexivity.
Qed.

(** The state in which a search leaves the store when it is called. *)
Lemma search_issued (k : kind) (q : string) (o : option Z) (st : SearchState.t) :
  issued merge (search k q o) st =
    {| query := q;
       results := if 0 <? defaultArg 0 o then results st else [];
       loading := true;
       error := None;
       hasMore := hasMore st;
       total := total st |}.
Proof.
  destruct k; unfold search, keywordSearch, semanticSearch, issued; cbn;
    destruct (Z.ltb_spec 0 (defaultArg 0 o)) as [Hpos | Hle]; cbn;
    destruct (Z.eqb_spec (defaultArg 0 o) 0) as [Hz | Hnz];
    try reflexivity; lia.
Qed.

(** The state after a fulfilled search, whatever the store holds when
    the response arrives. *)
Lemma search_fulfilled (k : kind) (q : string) (o : option Z)
      (st now : SearchState.t) (r : SearchResponse.t) :
  settle merge (search k q o) st (Fulfilled r) now =
    {| query := query now;
       results := if defaultArg 0 o =? 0 then SearchResponse.results r
                  else (if 0 <? defaultArg 0 o then results st else [])
                         ++ SearchResponse.results r;
       loading := false;
       error := error now;
       hasMore := defaultArg 0 o + Z.of_nat (List.length (SearchResponse.results r))
                    <? SearchResponse.total r;
       total := SearchResponse.total r |}.
Proof.
  destruct k; unfold search, keywordSearch, semanticSearch, settle; cbn;
    destruct (0 <? defaultArg 0 o); reflexivity.
Qed.

(** The state after a rejected search. *)
Lemma search_rejected (k : kind) (q : string) (o : option Z)
      (st now : SearchState.t) (e : thrown) :
  settle merge (search k q o) st (Rejected e) now =
    {| query := query now;
       results := results now;
       loading := false;
       error := Some match isApiError e with
                     | Some a => ApiError.message a
                     | None => fallback k
                     end;
       hasMore := false;
       total := total now |}.
Proof.
  destruct k; unfold search, keywordSearch, semanticSearch, settle; cbn;
    destruct (0 <? defaultArg 0 o); reflexivity.
Qed.

(** C1. A search of either kind, called in state [st] with offset [n],
    whose response [r] is applied (to whatever the store holds then,
    [now]): with [n = 0] the results are exactly those of [r], in
    order; with [n > 0] they are the results of [st] followed by those
    of [r], nothing reordered and nothing removed; [total] is that of
    [r], [hasMore] is [n + length r.results < r.total], and [loading]
    is false. *)
Theorem search_success_appends (k : kind) (q : string) (o : option Z)
        (st now : SearchState.t) (r : SearchResponse.t) :
  let n := defaultArg 0 o in
  let final := settle merge (search k q o) st (Fulfilled r) now in
  request merge (search k q o) st =
    Some (endpoint k {| SearchRequest.query := q;
                        SearchRequest.limit := Some 20;
                        SearchRequest.offset := Some n |}) /\
  (n = 0 -> results final = SearchResponse.results r) /\
  (0 < n -> results final = results st ++ SearchResponse.results r) /\
  total final = SearchResponse.total r /\
  hasMore final =
    (n + Z.of_nat (List.length (SearchResponse.results r)) <? SearchResponse.total r) /\
  loading final = false.
Proof.
  intros n final. subst final. rewrite search_fulfilled, search_request.
  fold n. cbn.
  repeat split.
  - intros ->. reflexivity.
  - intros Hpos.
    destruct (Z.eqb_spec n 0) as [Hz | _]; [lia |].
    destruct (Z.ltb_spec 0 n) as [_ | Hle]; [reflexivity | lia].
Qed.

(** C2. A search of either kind that is rejected leaves [error] set to
    the failure's message when it carries one and to the fallback of
    the search kind otherwise, [loading] false and [hasMore] false,
    whatever they were before. *)
Theorem search_failure_flags (k : kind) (q : string) (o : option Z)
        (st now : SearchState.t) (e : thrown) :
  let final := settle merge (search k q o) st (Rejected e) now in
  error final = Some match isApiError e with
                     | Some a => ApiError.message a
                     | None => fallback k
                     end /\
  loading final = false /\
  hasMore final = false.
Proof.
  intros final. subst final. rewrite search_rejected. cbn. auto.
Qed.

Lemma search_success_appends_witness :
  0 < defaultArg 0 (Some 1) /\
  results Sample.afterPage2 =
    results Sample.afterPage1 ++ SearchResponse.results Sample.page2.
Proof.
  split; [reflexivity |].
  apply (search_success_appends keyword "AI" (Some 1) Sample.afterPage1
           (issued merge (keywordSearch "AI" (Some 1)) Sample.afterPage1)
           Sample.page2).
  reflexivity.
Defined.

(** C3, as the spec states it, fails on a well-behaved second page:
    after page 1 (offset 0, one result of two) and page 2 (offset 1,
    one result of two) the store holds both results, and
    [offset + results.length] is [1 + 2], above [total = 2]. *)
Lemma offset_plus_loaded_exceeds_total :
  SearchResponse.total Sample.page2 = 2 /\
  ~ (1 + Z.of_nat (List.length (results Sample.afterPage2))
       <= total Sample.afterPage2).
Proof.
  split; [reflexivity |].
  vm_compute. intros H. apply H. reflexivity.
Qed.

(** C3, amended. After the response [r] of a search with offset
    [n >= 0] is applied, the number of loaded results is at most
    [total], provided the page fits ([n + length r.results <= r.total])
    and, when appending, the call started from no more loaded results
    than its offset. *)
Theorem loaded_within_total (k : kind) (q : string) (o : option Z)
        (st now : SearchState.t) (r : SearchResponse.t) :
  let n := defaultArg 0 o in
  let final := settle merge (search k q o) st (Fulfilled r) now in
  0 <= n ->
  (0 < n -> Z.of_nat (List.length (results st)) <= n) ->
  n + Z.of_nat (List.length (SearchResponse.results r)) <= SearchResponse.total r ->
  Z.of_nat (List.length (results final)) <= total final.
Proof.
  intros n final Hn Hloaded Hpage. subst final.
  rewrite search_fulfilled. fold n. cbn.
  destruct (Z.eqb_spec n 0) as [Hz | Hnz]; [lia |].
  destruct (Z.ltb_spec 0 n) as [Hpos | Hle]; [| lia].
  rewrite length_app, Nat2Z.inj_add.
  specialize (Hloaded Hpos). lia.
Qed.

Lemma loaded_within_total_witness :
  Z.of_nat (List.length (results Sample.afterPage2)) <= total Sample.afterPage2.
Proof.
  apply (loaded_within_total keyword "AI" (Some 1) Sample.afterPage1
           (issued merge (keywordSearch "AI" (Some 1)) Sample.afterPage1)
           Sample.page2).
  - vm_compute. discriminate.
  - intros _. vm_compute. discriminate.
  - vm_compute. discriminate.
Defined.

(** Every [set] of every action keeps [loading] and [error] exclusive. *)
Lemma callable_keeps (m : action) : callable m -> keeps merge exclusive m.
Proof.
  intros Hm. destruct Hm as [q | rs | q o | q o | |];
    unfold setQuery, setResults, keywordSearch, semanticSearch,
           clearResults, clearError; cbn;
    try destruct (0 <? defaultArg 0 o); cbn;
    repeat match goal with
           | |- _ /\ _ => split
           | |- True => exact Logic.I
           | |- forall o : settled _, _ => intros [? | ?]; cbn
           | |- forall s : SearchState.t, _ => intros ?; cbn
           | |- exclusive _ -> exclusive _ =>
               unfold exclusive; cbn; intros H H';
               first [exact (H H') | discriminate H' | reflexivity]
           end.
Qed.

(** C6. In every state the store reaches through [setQuery],
    [setResults], the two searches (called, and settled in any order),
    [clearResults] and [clearError], [loading] is not true while
    [error] is present; and a step that leaves an error in the store
    leaves [loading] false. *)
Theorem loading_error_exclusive
        (c : config SearchState.t (list key) searchApiCall SearchResponse.t) :
  reachable c ->
  (loading (store c) = true -> error (store c) = None) /\
  (forall c', step merge callable c c' ->
              error (store c') <> None -> loading (store c') = false).
Proof.
  intros Hc.
  assert (Hinit : exclusive initial) by (intros _; reflexivity).
  split.
  - exact (proj1 (reachable_keeps merge exclusive callable callable_keeps
                    initial c Hinit Hc)).
  - intros c' Hstep Herr.
    assert (Hc' : reachable c') by (eapply reach_step; eassumption).
    pose proof (proj1 (reachable_keeps merge exclusive callable callable_keeps
                         initial c' Hinit Hc')) as Hex.
    unfold exclusive in Hex.
    destruct (loading (store c')); [| reflexivity].
    exfalso. apply Herr, Hex. reflexivity.
Qed.

Lemma loading_error_exclusive_witness :
  reachable Sample.searching /\
  (loading (store Sample.searching) = true -> error (store Sample.searching) = None).
Proof.
  assert (H : reachable Sample.searching).
  { apply (reach_step merge callable initial (mkConfig initial [])).
    - apply reach_init.
    - exact (step_call merge callable (mkConfig initial [])
               (keywordSearch "AI" None) (call_keywordSearch "AI" None)). }
  split; [exact H |].
  exact (proj1 (loading_error_exclusive Sample.searching H)).
Defined.

(** C7. From every state [clearResults] leaves the results empty,
    [total] 0, [hasMore] true and no error, and leaves [query] (and
    [loading]) as they were; clearing twice is clearing once. *)
Theorem clearResults_resets (s : SearchState.t) :
  let s' := run clearResults s in
  results s' = [] /\
  total s' = 0 /\
  hasMore s' = true /\
  error s' = None /\
  query s' = query s /\
  loading s' = loading s /\
  run clearResults s' = s'.
Proof.
  cbn. repeat split; reflexivity.
Qed.

(** C8. [semanticSearch] does to the store what [keywordSearch] does:
    the same state when called, the same request sent to the other
    endpoint, the same state after the same response and after the same
    failure with a message; after a failure without a message the two
    states differ in [error] alone, each holding its own fallback. *)
Theorem semanticSearch_like_keywordSearch (q : string) (o : option Z)
        (st now : SearchState.t) :
  issued merge (semanticSearch q o) st = issued merge (keywordSearch q o) st /\
  (exists req,
      request merge (keywordSearch q o) st = Some (keywordSearchCall req) /\
      request merge (semanticSearch q o) st = Some (semanticSearchCall req)) /\
  (forall r,
      settle merge (semanticSearch q o) st (Fulfilled r) now =
      settle merge (keywordSearch q o) st (Fulfilled r) now) /\
  (forall a,
      settle merge (semanticSearch q o) st (Rejected (ThrownApiError a)) now =
      settle merge (keywordSearch q o) st (Rejected (ThrownApiError a)) now) /\
  (settle merge (semanticSearch q o) st (Rejected ThrownOther) now =
     merge (settle merge (keywordSearch q o) st (Rejected ThrownOther) now)
           [error_ (Some (fallback semantic))] /\
   error (settle merge (keywordSearch q o) st (Rejected ThrownOther) now) =
     Some (fallback keyword)).
Proof.
  split; [| split; [| split; [| split]]].
  - exact (eq_trans (search_issued semantic q o st)
                    (eq_sym (search_issued keyword q o st))).
  - eexists. split.
    + exact (search_request keyword q o st).
    + exact (search_request semantic q o st).
  - intros r.
    exact (eq_trans (search_fulfilled semantic q o st now r)
                    (eq_sym (search_fulfilled keyword q o st now r))).
  - intros a.
    exact (eq_trans (search_rejected semantic q o st now (ThrownApiError a))
                    (eq_sym (search_rejected keyword q o st now (ThrownApiError a)))).
  - change (keywordSearch q o) with (search keyword q o).
    change (semanticSearch q o) with (search semantic q o).
    rewrite !search_rejected. split; reflexivity.
Qed.




End SearchFacts.

(* ================================================================== *)
(** ** The question-answering store *)

Module RAGFacts.
Import RAGState useRAGStore.

Lemma askQuestion_request (q : string) (o : option Z) (st : RAGState.t) :
  request merge (askQuestion q o) st =
    Some (ragSearchCall {| RAGRequest.question := q;
                           RAGRequest.max_articles := Some (defaultArg 5 o);
                           RAGRequest.include_sources := Some true |}).
Proof. reflexivity. Qed.

Lemma askQuestion_issued (q : string) (o : option Z) (st : RAGState.t) :
  issued merge (askQuestion q o) st =
    {| question := q; answer := None; sources := []; loading := true;
       error := None; confidence := 0%float |}.
Proof. reflexivity. Qed.

Lemma askQuestion_fulfilled (q : string) (o : option Z) (st now : RAGState.t)
      (r : RAGResponse.t) :
  settle merge (askQuestion q o) st (Fulfilled r) now =
    {| question := question now;
       answer := Some (RAGResponse.answer r);
       sources := RAGResponse.sources r;
       loading := false;
       error := error now;
       confidence := RAGResponse.confidence r |}.
Proof. reflexivity. Qed.

Lemma askQuestion_rejected (q : string) (o : option Z) (st now : RAGState.t)
      (e : thrown) :
  settle merge (askQuestion q o) st (Rejected e) now =
    {| question := question now;
       answer := answer now;
       sources := sources now;
       loading := false;
       error := Some match isApiError e with
                     | Some a => ApiError.message a
                     | None => fallback
                     end;
       confidence := confidence now |}.
Proof. reflexivity. Qed.

(** C4, as the spec states it, fails: asked with blank text the store
    is not left as it was and a [ragSearch] request goes out. *)
Lemma blank_question_is_sent :
  blank "   " = true /\
  request merge (askQuestion "   " None) initial =
    Some (ragSearchCall {| RAGRequest.question := "   ";
                           RAGRequest.max_articles := Some 5;
                           RAGRequest.include_sources := Some true |}) /\
  issued merge (askQuestion "   " None) initial <> initial.
Proof.
  split; [reflexivity |]. split; [reflexivity |].
  rewrite askQuestion_issued. discriminate.
Qed.

(** C4, amended. [askQuestion] rejects nothing: for every question
    text, blank or not, it resets the answer, the sources, the
    confidence and the error, sets [loading] and leaves one [ragSearch]
    request in flight that carries the text as given. *)
Theorem askQuestion_always_sends (q : string) (o : option Z) (st : RAGState.t) :
  request merge (askQuestion q o) st =
    Some (ragSearchCall {| RAGRequest.question := q;
                           RAGRequest.max_articles := Some (defaultArg 5 o);
                           RAGRequest.include_sources := Some true |}) /\
  loading (issued merge (askQuestion q o) st) = true /\
  question (issued merge (askQuestion q o) st) = q /\
  answer (issued merge (askQuestion q o) st) = None /\
  sources (issued merge (askQuestion q o) st) = [] /\
  confidence (issued merge (askQuestion q o) st) = 0%float /\
  error (issued merge (askQuestion q o) st) = None.
Proof.
  rewrite askQuestion_request, askQuestion_issued. cbn. repeat split.
Qed.

(** The store reaches the overlap: two questions asked, the second
    answered, then the first rejected. *)
Lemma rag_overlap_reachable :
  InFlight.ragReachable (mkConfig Overlap.failed1 []).
Proof.
  unfold InFlight.ragReachable.
  eapply reach_step.
  - eapply reach_step.
    + eapply reach_step.
      * eapply reach_step; [apply reach_init |].
        exact (step_call useRAGStore.merge InFlight.ragCallable
                 (mkConfig useRAGStore.initial []) Overlap.first
                 (InFlight.call_askQuestion _ _)).
      * exact (step_call useRAGStore.merge InFlight.ragCallable _ Overlap.second
                 (InFlight.call_askQuestion _ _)).
    + cbn. match goal with
           | |- step _ _ {| store := ?s; inflight := [?p; (?call, ?k)] |} _ =>
               exact (step_settle useRAGStore.merge InFlight.ragCallable s [p] []
                        call k (Fulfilled Overlap.reply))
           end.
  - cbn. match goal with
         | |- step _ _ {| store := ?s; inflight := [(?call, ?k)] |} _ =>
             exact (step_settle useRAGStore.merge InFlight.ragCallable s [] []
                      call k (Rejected Sample.timeout))
         end.
Qed.

(** ... and the question retyped while the first is in flight. *)
Lemma rag_retyped_reachable :
  InFlight.ragReachable (mkConfig Overlap.answered1 []).
Proof.
  unfold InFlight.ragReachable.
  eapply reach_step.
  - eapply reach_step.
    + eapply reach_step; [apply reach_init |].
      exact (step_call useRAGStore.merge InFlight.ragCallable
               (mkConfig useRAGStore.initial []) Overlap.first
               (InFlight.call_askQuestion _ _)).
    + exact (step_call useRAGStore.merge InFlight.ragCallable _
               (useRAGStore.setQuestion "what is an LLM?")
               (InFlight.call_setQuestion _)).
  - cbn. match goal with
         | |- step _ _ {| store := ?s; inflight := [(?call, ?k)] |} _ =>
             exact (step_settle useRAGStore.merge InFlight.ragCallable s [] []
                      call k (Fulfilled Overlap.reply))
         end.
Qed.

(** C5, as the spec states it, fails when calls overlap: the first
    question is in flight, a second is asked and answered, and then the
    first fails; its failure leaves the answer, the sources and the
    confidence of the second in the store, beside the error. *)
Lemma failed_question_keeps_other_answer :
  InFlight.ragReachable (mkConfig Overlap.failed1 []) /\
  error Overlap.failed1 = Some "timeout of 30000ms exceeded" /\
  loading Overlap.failed1 = false /\
  answer Overlap.failed1 = Some "A large language model." /\
  sources Overlap.failed1 = [Sample.second] /\
  confidence Overlap.failed1 = 1%float /\
  ~ (answer Overlap.failed1 = None /\
     sources Overlap.failed1 = [] /\
     confidence Overlap.failed1 = 0%float).
Proof.
  split; [exact rag_overlap_reachable |].
  repeat split; try reflexivity.
  intros [Ha _]. discriminate Ha.
Qed.

(** C5, amended. A rejected [askQuestion] leaves [error] set to the
    failure's message, or to the fallback when it carries none, and
    [loading] false, whatever the store holds when it fails; it writes
    neither [answer] nor [sources] nor [confidence], which stay as the
    store holds them then.  Run alone, that is as they were reset when
    the question was asked: no answer, no sources, confidence 0. *)
Theorem askQuestion_failure (q : string) (o : option Z) (st : RAGState.t)
        (e : thrown) :
  let final := complete merge (askQuestion q o) st (Rejected e) in
  (error final = Some match isApiError e with
                      | Some a => ApiError.message a
                      | None => fallback
                      end /\
   loading final = false /\
   answer final = None /\
   sources final = [] /\
   confidence final = 0%float) /\
  (forall now,
      let late := settle merge (askQuestion q o) st (Rejected e) now in
      error late = Some match isApiError e with
                        | Some a => ApiError.message a
                        | None => fallback
                        end /\
      loading late = false /\
      answer late = answer now /\
      sources late = sources now /\
      confidence late = confidence now /\
      question late = question now).
Proof.
  intros final. subst final. unfold complete. split.
  - rewrite askQuestion_rejected, askQuestion_issued. cbn. repeat split.
  - intros now. cbv zeta. rewrite askQuestion_rejected. cbn.
    repeat split.
Qed.

(** C10, as the spec states it, fails when the question is changed
    while the call is in flight: [setQuestion], or a second
    [askQuestion], stores another text, and the settlement of the first
    call does not put its own back. *)
Lemma question_changed_in_flight :
  InFlight.ragReachable (mkConfig Overlap.answered1 []) /\
  InFlight.ragReachable (mkConfig Overlap.failed1 []) /\
  question Overlap.asked1 = "what is RAG?" /\
  question Overlap.answered1 = "what is an LLM?" /\
  question Overlap.failed1 = "what is an LLM?" /\
  question Overlap.answered1 <> "what is RAG?" /\
  question Overlap.failed1 <> "what is RAG?".
Proof.
  split; [exact rag_retyped_reachable |].
  split; [exact rag_overlap_reachable |].
  repeat split; try reflexivity; discriminate.
Qed.

(** C10, amended. [askQuestion q] stores [q] as the question when it is
    called, whatever [setQuestion] had stored before, and no settlement
    writes the question: when the call settles, fulfilled or rejected,
    the question is the one the store holds then.  Run alone, that is
    still [q]. *)
Theorem askQuestion_overwrites_question (q q' : string) (o : option Z)
        (st : RAGState.t) (outcome : settled RAGResponse.t) :
  question (issued merge (askQuestion q o) st) = q /\
  question (complete merge (askQuestion q o) st outcome) = q /\
  question (run (setQuestion q') st) = q' /\
  question (complete merge (askQuestion q o) (run (setQuestion q') st) outcome) = q /\
  (forall now,
      question (settle merge (askQuestion q o) st outcome now) = question now).
Proof.
  unfold complete. rewrite !askQuestion_issued.
  destruct outcome as [r | e];
    [rewrite !askQuestion_fulfilled | rewrite !askQuestion_rejected];
    cbn; repeat split.
Qed.
End RAGFacts.

(* ================================================================== *)
(** ** The search store: how calls compose *)

Module SearchComposition.
Import SearchState useSearchStore.

(** X1. Loading page by page: a search with offset 0 followed, once it
    has settled, by a search whose offset is the number of results then
    loaded leaves the results of the first response followed by those of
    the second, [total] of the second, and [hasMore] telling whether
    fewer results are loaded than [total]. *)
Theorem pagination_concatenates (k1 k2 : kind) (q : string) (st : SearchState.t)
        (r1 r2 : SearchResponse.t) :
  let s1 := complete merge (search k1 q (Some 0)) st (Fulfilled r1) in
  let n := Z.of_nat (List.length (results s1)) in
  let s2 := complete merge (search k2 q (Some n)) s1 (Fulfilled r2) in
  results s2 = SearchResponse.results r1 ++ SearchResponse.results r2 /\
  total s2 = SearchResponse.total r2 /\
  hasMore s2 = (Z.of_nat (List.length (results s2)) <? SearchResponse.total r2).
Proof.
  intros s1 n s2.
  assert (H1 : results s1 = SearchResponse.results r1).
  { subst s1. unfold complete. rewrite SearchFacts.search_fulfilled. reflexivity. }
  assert (Hn : n = Z.of_nat (List.length (SearchResponse.results r1))).
  { subst n. rewrite H1. reflexivity. }
  subst s2. unfold complete. rewrite SearchFacts.search_fulfilled. cbn.
  rewrite H1. fold n.
  destruct (Z.eqb_spec n 0) as [Hz | Hnz].
  - assert (Hnil : SearchResponse.results r1 = []).
    { destruct (SearchResponse.results r1); [reflexivity |].
      cbn [List.length] in Hn. lia. }
    rewrite Hnil. cbn. rewrite Hz. auto.
  - destruct (Z.ltb_spec 0 n) as [_ | Hle]; [| lia].
    rewrite length_app, Nat2Z.inj_add, <- Hn. auto.
Qed.

(** X2. When a search is called with the number of loaded results as
    its offset (or with offset 0), then after its response [hasMore] is
    true exactly when fewer results are loaded than [total]. *)
Theorem hasMore_iff_more_to_load (k : kind) (q : string) (o : option Z)
        (st now : SearchState.t) (r : SearchResponse.t) :
  let n := defaultArg 0 o in
  let final := settle merge (search k q o) st (Fulfilled r) now in
  0 <= n ->
  (0 < n -> Z.of_nat (List.length (results st)) = n) ->
  hasMore final = (Z.of_nat (List.length (results final)) <? total final).
Proof.
  intros n final Hn Hloaded. subst final.
  rewrite SearchFacts.search_fulfilled. fold n. cbn.
  destruct (Z.eqb_spec n 0) as [Hz | Hnz].
  - rewrite Hz. reflexivity.
  - destruct (Z.ltb_spec 0 n) as [Hpos | Hle]; [| lia].
    rewrite length_app, Nat2Z.inj_add, (Hloaded Hpos). reflexivity.
Qed.

Lemma hasMore_iff_more_to_load_witness :
  0 <= defaultArg 0 (Some 1) /\
  hasMore Sample.afterPage2 =
    (Z.of_nat (List.length (results Sample.afterPage2)) <? total Sample.afterPage2).
Proof.
  split; [discriminate |].
  apply (hasMore_iff_more_to_load keyword "AI" (Some 1) Sample.afterPage1
           (issued merge (keywordSearch "AI" (Some 1)) Sample.afterPage1)
           Sample.page2).
  - discriminate.
  - intros _. reflexivity.
Defined.

(** X3. Responses are applied in the order they arrive.  When a search
    with offset 0 is still in flight, a second search is called and
    settles first, and then the first one settles: a response of the
    first replaces the results and [total] of the second under the query
    text of the second; a failure of the first leaves the results of the
    second and marks them with its error and [hasMore] false. *)
Theorem stale_settlement_overwrites (k1 k2 : kind) (q1 q2 : string)
        (o1 o2 : option Z) (st : SearchState.t)
        (r1 r2 : SearchResponse.t) (e : thrown) :
  defaultArg 0 o1 = 0 ->
  let s1 := issued merge (search k1 q1 o1) st in
  let s2 := issued merge (search k2 q2 o2) s1 in
  let s3 := settle merge (search k2 q2 o2) s1 (Fulfilled r2) s2 in
  let late := settle merge (search k1 q1 o1) st (Fulfilled r1) s3 in
  let failed := settle merge (search k1 q1 o1) st (Rejected e) s3 in
  (query late = q2 /\
   results late = SearchResponse.results r1 /\
   total late = SearchResponse.total r1 /\
   loading late = false) /\
  (query failed = q2 /\
   results failed = results s3 /\
   total failed = SearchResponse.total r2 /\
   error failed <> None /\
   hasMore failed = false).
Proof.
  intros Hz s1 s2 s3 late failed. subst late failed s3 s2.
  rewrite !SearchFacts.search_fulfilled, !SearchFacts.search_rejected,
          !SearchFacts.search_issued.
  rewrite Hz. cbn. repeat split. discriminate.
Qed.

Lemma stale_settlement_overwrites_witness :
  defaultArg 0 None = 0 /\
  let s1 := issued merge (search keyword "AI" None) initial in
  let s2 := issued merge (search keyword "RAG" None) s1 in
  let s3 := settle merge (search keyword "RAG" None) s1 (Fulfilled Sample.page2) s2 in
  let late := settle merge (search keyword "AI" None) initial (Fulfilled Sample.page1) s3 in
  query late = "RAG" /\ results late = [Sample.first].
Proof.
  split; [reflexivity |].
  destruct (stale_settlement_overwrites keyword keyword "AI" "RAG" None None
              initial Sample.page1 Sample.page2 Sample.timeout eq_refl)
    as [[Hq [Hr _]] _].
  split; [exact Hq | exact Hr].
Defined.

(** X4. A negative offset is not refused: it is sent to the API as it
    is, the results are cleared at the call and replaced by the
    response, and [hasMore] is true whenever the page fits in [total],
    even when nothing is left to load. *)
Theorem negative_offset_replaces (k : kind) (q : string) (n : Z)
        (st now : SearchState.t) (r : SearchResponse.t) :
  n < 0 ->
  let final := settle merge (search k q (Some n)) st (Fulfilled r) now in
  request merge (search k q (Some n)) st =
    Some (endpoint k {| SearchRequest.query := q;
                        SearchRequest.limit := Some 20;
                        SearchRequest.offset := Some n |}) /\
  results (issued merge (search k q (Some n)) st) = [] /\
  results final = SearchResponse.results r /\
  (Z.of_nat (List.length (SearchResponse.results r)) <= SearchResponse.total r ->
   hasMore final = true).
Proof.
  intros Hneg final. subst final.
  rewrite SearchFacts.search_request, SearchFacts.search_issued,
          SearchFacts.search_fulfilled.
  cbn.
  destruct (Z.ltb_spec 0 n) as [Hpos | _]; [lia |].
  destruct (Z.eqb_spec n 0) as [Hz | _]; [lia |].
  repeat split.
  intros Hfit. apply Z.ltb_lt. lia.
Qed.

Lemma negative_offset_replaces_witness :
  -1 < 0 /\
  hasMore (settle merge (search keyword "AI" (Some (-1))) Sample.afterPage2
             (Fulfilled Sample.page2) Sample.afterPage2) = true.
Proof.
  split; [reflexivity |].
  apply (negative_offset_replaces keyword "AI" (-1) Sample.afterPage2
           Sample.afterPage2 Sample.page2); [reflexivity |].
  vm_compute. discriminate.
Defined.

(** X5. After a failed search, [clearError] removes the error but
    leaves [hasMore] false and the results as they are, whereas
    [clearResults] removes the error and sets [hasMore] again. *)
Theorem recovery_after_failure (k : kind) (q : string) (o : option Z)
        (st : SearchState.t) (e : thrown) :
  let failed := complete merge (search k q o) st (Rejected e) in
  (error (run clearError failed) = None /\
   hasMore (run clearError failed) = false /\
   results (run clearError failed) = results failed /\
   loading (run clearError failed) = false) /\
  (error (run clearResults failed) = None /\
   hasMore (run clearResults failed) = true /\
   results (run clearResults failed) = [] /\
   loading (run clearResults failed) = false).
Proof.
  intros failed. subst failed. unfold complete.
  rewrite SearchFacts.search_rejected. cbn. repeat split.
Qed.

(** X6. A search that runs alone and is fulfilled leaves no error in
    the store, whatever error was there before, and leaves its query
    text as [query]: searching again after a failure clears the
    failure. *)
Theorem fulfilled_search_clears_error (k k' : kind) (q q' : string)
        (o o' : option Z) (st : SearchState.t) (r : SearchResponse.t) (e : thrown) :
  let final := complete merge (search k q o) st (Fulfilled r) in
  let failed := complete merge (search k' q' o') st (Rejected e) in
  let retried := complete merge (search k q o) failed (Fulfilled r) in
  (error final = None /\ query final = q) /\
  (error failed <> None /\
   error retried = None /\
   query retried = q /\
   hasMore retried = hasMore final).
Proof.
  intros final failed retried. subst final failed retried. unfold complete.
  rewrite !SearchFacts.search_fulfilled, !SearchFacts.search_rejected,
          !SearchFacts.search_issued.
  cbn. repeat split. discriminate.
Qed.

(** X7. [clearResults] does not cancel a search in flight.  Called
    while a next page (offset above 0) is loading it empties the results
    and leaves [loading] true; when the response arrives the results
    are again those from before the call followed by the new page. *)
Theorem clearResults_does_not_cancel (k : kind) (q : string) (o : option Z)
        (st : SearchState.t) (r : SearchResponse.t) :
  0 < defaultArg 0 o ->
  let cleared := run clearResults (issued merge (search k q o) st) in
  let final := settle merge (search k q o) st (Fulfilled r) cleared in
  loading cleared = true /\
  results cleared = [] /\
  results final = results st ++ SearchResponse.results r /\
  total final = SearchResponse.total r.
Proof.
  intros Hpos cleared final. subst final cleared.
  rewrite SearchFacts.search_fulfilled, SearchFacts.search_issued. cbn.
  destruct (Z.eqb_spec (defaultArg 0 o) 0) as [Hz | _]; [lia |].
  destruct (Z.ltb_spec 0 (defaultArg 0 o)) as [_ | Hle]; [| lia].
  repeat split.
Qed.

Lemma clearResults_does_not_cancel_witness :
  0 < defaultArg 0 (Some 1) /\
  results (settle merge (search keyword "AI" (Some 1)) Sample.afterPage1
             (Fulfilled Sample.page2)
             (run clearResults
                  (issued merge (search keyword "AI" (Some 1)) Sample.afterPage1)))
    = [Sample.first; Sample.second].
Proof.
  split; [reflexivity |].
  destruct (clearResults_does_not_cancel keyword "AI" (Some 1) Sample.afterPage1
              Sample.page2 eq_refl) as [_ [_ [Hres _]]].
  exact Hres.
Defined.

(** What a search leaves in flight ends the loading when it settles. *)
Lemma search_leaves_pending (k : kind) (q : string) (o : option Z)
      (s : SearchState.t) :
  exists p, snd (advance merge (search k q o) s) = Some p /\ InFlight.searchEnds p.
Proof.
  destruct k; unfold search, keywordSearch, semanticSearch; cbn;
    destruct (0 <? defaultArg 0 o); cbn;
    (eexists; split; [reflexivity |]);
    intros [r | e] s'; cbn; split; reflexivity.
Qed.

Lemma step_backed
      (c c' : config SearchState.t (list key) searchApiCall SearchResponse.t) :
  step merge callable c c' -> InFlight.searchBacked c -> InFlight.searchBacked c'.
Proof.
  intros Hstep [Hload Hends].
  destruct Hstep as [c m Hm | s before after call k o].
  - destruct Hm as [q | rs | q o | q o | |].
    1, 2, 5, 6: (split; [exact Hload | exact Hends]).
    + destruct (search_leaves_pending keyword q o (store c)) as [p [Hp Hpe]].
      cbn [search] in Hp. rewrite Hp. cbn. split.
      * intros _ Hnil. apply app_eq_nil in Hnil. destruct Hnil as [_ Hnil].
        discriminate Hnil.
      * apply Forall_app. split; [exact Hends | constructor; [exact Hpe | constructor]].
    + destruct (search_leaves_pending semantic q o (store c)) as [p [Hp Hpe]].
      cbn [search] in Hp. rewrite Hp. cbn. split.
      * intros _ Hnil. apply app_eq_nil in Hnil. destruct Hnil as [_ Hnil].
        discriminate Hnil.
      * apply Forall_app. split; [exact Hends | constructor; [exact Hpe | constructor]].
  - cbn in Hends. apply Forall_app in Hends. destruct Hends as [Hb Ha].
    inversion Ha as [| x l Hx Ha']; subst.
    destruct (Hx o s) as [Hfalse Hnone]. cbn [snd] in Hfalse, Hnone.
    unfold InFlight.searchBacked. cbn [store inflight].
    destruct (advance merge (k o) s) as [s' t]. cbn [fst snd] in *.
    subst t. cbn [enqueue]. split.
    + rewrite Hfalse. discriminate.
    + apply Forall_app. split; assumption.
Qed.

(** X8. However calls and settlements interleave, [loading] is true
    only while a search is in flight: the store never shows loading
    with no request left to end it. *)
Theorem loading_has_request
        (c : config SearchState.t (list key) searchApiCall SearchResponse.t) :
  reachable c ->
  loading (store c) = true ->
  inflight c <> [].
Proof.
  intros Hreach.
  assert (H : InFlight.searchBacked c).
  { induction Hreach as [| c c' _ IH Hstep].
    - split; [cbn; discriminate | constructor].
    - exact (step_backed c c' Hstep IH). }
  exact (proj1 H).
Qed.

Lemma loading_has_request_witness :
  reachable Sample.searching /\
  loading (store Sample.searching) = true /\
  inflight Sample.searching <> [].
Proof.
  assert (H : reachable Sample.searching).
  { apply (reach_step merge callable initial (mkConfig initial [])).
    - apply reach_init.
    - exact (step_call merge callable (mkConfig initial [])
               (keywordSearch "AI" None) (call_keywordSearch "AI" None)). }
  split; [exact H |]. split; [reflexivity |].
  exact (loading_has_request Sample.searching H eq_refl).
Defined.

(** X21. A response does not clear an error.  When two searches are in
    flight, the first is rejected and the second is then fulfilled, the
    store shows the results of the second, not loading, together with
    the error of the first. *)
Theorem late_success_keeps_error (k1 k2 : kind) (q1 q2 : string)
        (o1 o2 : option Z) (st : SearchState.t)
        (r2 : SearchResponse.t) (e : thrown) :
  let s1 := issued merge (search k1 q1 o1) st in
  let s2 := issued merge (search k2 q2 o2) s1 in
  let s3 := settle merge (search k1 q1 o1) st (Rejected e) s2 in
  let final := settle merge (search k2 q2 o2) s1 (Fulfilled r2) s3 in
  error final = error s3 /\
  error final <> None /\
  loading final = false /\
  total final = SearchResponse.total r2 /\
  results final =
    results (complete merge (search k2 q2 o2) s1 (Fulfilled r2)).
Proof.
  intros s1 s2 s3 final. subst final s3 s2. unfold complete.
  rewrite !SearchFacts.search_fulfilled, !SearchFacts.search_rejected.
  cbn. repeat split. discriminate.
Qed.
End SearchComposition.

(* ================================================================== *)
(** ** The question-answering store: answers, resets and races *)

Module RAGComposition.
Import RAGState useRAGStore.

(** X9. A question that runs alone and is answered leaves the answer,
    the sources and the confidence of the response in the store, with
    [loading] false, no error, and the question as asked. *)
Theorem askQuestion_success (q : string) (o : option Z) (st : RAGState.t)
        (r : RAGResponse.t) :
  let final := complete merge (askQuestion q o) st (Fulfilled r) in
  answer final = Some (RAGResponse.answer r) /\
  sources final = RAGResponse.sources r /\
  confidence final = RAGResponse.confidence r /\
  loading final = false /\
  error final = None /\
  question final = q.
Proof.
  intros final. subst final. unfold complete.
  rewrite RAGFacts.askQuestion_fulfilled, RAGFacts.askQuestion_issued.
  cbn. repeat split.
Qed.

Lemma ragCallable_keeps (m : action) :
  InFlight.ragCallable m -> keeps merge InFlight.ragReset m.
Proof.
  intros Hm. destruct Hm as [q | q o | |];
    unfold setQuestion, askQuestion, clearAnswer, clearError; cbn;
    repeat match goal with
           | |- _ /\ _ => split
           | |- True => exact Logic.I
           | |- forall o : settled _, _ => intros [? | ?]; cbn
           | |- forall s : RAGState.t, InFlight.ragReset s -> InFlight.ragReset _ =>
               unfold InFlight.ragReset; cbn; intros s H Hl;
               try discriminate Hl;
               try (destruct (H Hl) as [? [? [? ?]]]);
               repeat split; try assumption; try reflexivity
           end.
Qed.

(** X10. However calls and settlements interleave, while [loading] is
    true the store shows no error, no answer, no sources and confidence
    0: an older answer is never shown for a question still loading. *)
Theorem loading_shows_no_answer
        (c : config RAGState.t (list key) ragApiCall RAGResponse.t) :
  InFlight.ragReachable c ->
  loading (store c) = true ->
  error (store c) = None /\
  answer (store c) = None /\
  sources (store c) = [] /\
  confidence (store c) = 0%float.
Proof.
  intros Hc.
  assert (Hinit : InFlight.ragReset initial) by (intros Hl; discriminate Hl).
  exact (proj1 (reachable_keeps merge InFlight.ragReset InFlight.ragCallable
                  ragCallable_keeps initial c Hinit Hc)).
Qed.

Lemma loading_shows_no_answer_witness :
  InFlight.ragReachable InFlight.asking /\
  loading (store InFlight.asking) = true /\
  answer (store InFlight.asking) = None.
Proof.
  assert (H : InFlight.ragReachable InFlight.asking).
  { apply (reach_step merge InFlight.ragCallable initial (mkConfig initial [])).
    - apply reach_init.
    - exact (step_call merge InFlight.ragCallable (mkConfig initial [])
               (askQuestion "what is RAG?" None)
               (InFlight.call_askQuestion "what is RAG?" None)). }
  split; [exact H |]. split; [reflexivity |].
  exact (proj1 (proj2 (loading_shows_no_answer InFlight.asking H eq_refl))).
Defined.

(** X11. [clearAnswer] removes the answer, the sources, the confidence
    and the error, leaves the question and [loading], and does the same
    when repeated; it does not cancel a question in flight, whose answer
    is stored when it arrives. *)
Theorem clearAnswer_resets (q : string) (o : option Z) (s st : RAGState.t)
        (r : RAGResponse.t) :
  let s' := run clearAnswer s in
  let cleared := run clearAnswer (issued merge (askQuestion q o) st) in
  (answer s' = None /\ sources s' = [] /\ confidence s' = 0%float /\
   error s' = None /\ question s' = question s /\ loading s' = loading s /\
   run clearAnswer s' = s') /\
  (loading cleared = true /\
   answer (settle merge (askQuestion q o) st (Fulfilled r) cleared) =
     Some (RAGResponse.answer r)).
Proof.
  cbn. repeat split.
Qed.

(** X12. Answers are stored in the order they arrive.  When a second
    question is asked while the first is in flight and the first is
    answered last, the store holds the second question with the answer,
    sources and confidence of the first. *)
Theorem stale_answer_overwrites (q1 q2 : string) (o1 o2 : option Z)
        (st : RAGState.t) (r1 r2 : RAGResponse.t) :
  let s1 := issued merge (askQuestion q1 o1) st in
  let s2 := issued merge (askQuestion q2 o2) s1 in
  let s3 := settle merge (askQuestion q2 o2) s1 (Fulfilled r2) s2 in
  let late := settle merge (askQuestion q1 o1) st (Fulfilled r1) s3 in
  question late = q2 /\
  answer late = Some (RAGResponse.answer r1) /\
  sources late = RAGResponse.sources r1 /\
  confidence late = RAGResponse.confidence r1.
Proof.
  intros s1 s2 s3 late. subst late s3 s2 s1.
  rewrite !RAGFacts.askQuestion_fulfilled, !RAGFacts.askQuestion_issued.
  cbn. repeat split.
Qed.
End RAGComposition.

(* ================================================================== *)
(** ** The application store *)

Module AppFacts.
Import AppState useAppStore.

(** X13. Toggling the theme twice, or the sidebar twice, gives the
    state back; toggling one leaves the other. *)
Theorem toggles_are_involutions (s : AppState.t) :
  run toggleTheme (run toggleTheme s) = s /\
  run toggleSidebar (run toggleSidebar s) = s /\
  run toggleTheme s <> s /\
  sidebarOpen (run toggleTheme s) = sidebarOpen s /\
  theme (run toggleSidebar s) = theme s.
Proof.
  destruct s as [open [|]]; cbn; rewrite ?negb_involutive;
    repeat split; discriminate.
Qed.

(** What an action does to the theme does not depend on the sidebar. *)
Lemma run_theme (m : action) (s1 s2 : AppState.t) :
  callable m -> theme s1 = theme s2 -> theme (run m s1) = theme (run m s2).
Proof.
  intros Hm Ht. destruct Hm; cbn; try rewrite Ht; reflexivity.
Qed.

(** X14. Only the theme is stored, and the sidebar never leaks into
    it: after any sequence of actions what [partialize] keeps is the
    same from two states with the same theme, whatever their sidebars;
    starting again from what was kept gives the theme reached and a
    closed sidebar. *)
Theorem only_theme_survives (ms : list action) (s1 s2 : AppState.t) :
  Forall callable ms ->
  theme s1 = theme s2 ->
  partialize (runAll ms s1) = partialize (runAll ms s2) /\
  rehydrate (partialize (runAll ms s1)) =
    {| sidebarOpen := false; theme := theme (runAll ms s1) |}.
Proof.
  intros Hms Ht. split; [| reflexivity].
  unfold partialize. f_equal. f_equal.
  revert s1 s2 Ht.
  induction Hms as [| m ms Hm _ IH]; intros s1 s2 Ht; cbn.
  - exact Ht.
  - apply IH. apply run_theme; assumption.
Qed.

Lemma only_theme_survives_witness :
  Forall callable [toggleSidebar; toggleTheme; setSidebarOpen true] /\
  rehydrate (partialize (runAll [toggleSidebar; toggleTheme; setSidebarOpen true]
                                initial)) =
    {| sidebarOpen := false; theme := dark |}.
Proof.
  assert (H : Forall callable [toggleSidebar; toggleTheme; setSidebarOpen true]).
  { repeat constructor. }
  split; [exact H |].
  exact (proj2 (only_theme_survives
                  [toggleSidebar; toggleTheme; setSidebarOpen true]
                  initial initial H eq_refl)).
Defined.
End AppFacts.

(* ================================================================== *)
(** ** Trimming *)

Module TrimFacts.
Import JSString.
Local Open Scope string_scope.

Lemma stripPrefix_append (p s r : string) :
  stripPrefix p s = Some r -> s = p ++ r.
Proof.
  revert s. induction p as [| a p IH]; intros s H; cbn in *.
  - congruence.
  - destruct s as [| b s]; [discriminate |].
    destruct (Ascii.eqb_spec a b) as [-> | _]; [| discriminate].
    cbn. f_equal. apply IH, H.
Qed.

Lemma stripPrefix_self (p r : string) : stripPrefix p (p ++ r) = Some r.
Proof.
  induction p as [| a p IH]; cbn; [reflexivity |].
  rewrite Ascii.eqb_refl. exact IH.
Qed.

Lemma append_assoc (a b c : string) : (a ++ b) ++ c = a ++ (b ++ c).
Proof.
  induction a as [| x a IH]; cbn; [reflexivity | f_equal; exact IH].
Qed.

Lemma append_empty (a : string) : a ++ "" = a.
Proof.
  induction a as [| x a IH]; cbn; [reflexivity | f_equal; exact IH].
Qed.

Lemma length_append (a b : string) :
  String.length (a ++ b) = (String.length a + String.length b)%nat.
Proof.
  induction a as [| x a IH]; cbn; [reflexivity | f_equal; exact IH].
Qed.

(** A prefix of the text is a prefix of the longer text. *)
Lemma stripPrefix_longer (p a b r : string) :
  stripPrefix p a = Some r -> stripPrefix p (a ++ b) = Some (r ++ b).
Proof.
  intros H. apply stripPrefix_append in H. subst a.
  rewrite append_assoc. apply stripPrefix_self.
Qed.

(** What starts the longer text and not the text is longer than the
    text, which starts it. *)
Lemma stripPrefix_short (p a b r : string) :
  stripPrefix p a = None ->
  stripPrefix p (a ++ b) = Some r ->
  exists x, stripPrefix a p = Some x.
Proof.
  revert a. induction p as [| c p IH]; intros a Hnone Hsome; cbn in *.
  - discriminate.
  - destruct a as [| d a]; cbn in *.
    + eexists. reflexivity.
    + destruct (Ascii.eqb_spec c d) as [-> | _]; [| discriminate].
      rewrite Ascii.eqb_refl. exact (IH a Hnone Hsome).
Qed.

Lemma stripPrefix_trans (q a p x y : string) :
  stripPrefix q a = Some x -> stripPrefix a p = Some y ->
  stripPrefix q p = Some (x ++ y).
Proof.
  intros Hq Ha. apply stripPrefix_append in Hq, Ha. subst a p.
  rewrite append_assoc. apply stripPrefix_self.
Qed.

Lemma stripAny_in (ps : list string) (s r : string) :
  stripAny ps s = Some r -> exists q, In q ps /\ stripPrefix q s = Some r.
Proof.
  induction ps as [| p ps IH]; cbn; [discriminate |].
  destruct (stripPrefix p s) as [r0 |] eqn:E.
  - intros H. injection H as <-. exists p. auto.
  - intros H. destruct (IH H) as [q [Hin Hq]]. exists q. auto.
Qed.

Lemma stripAny_longer (ps : list string) (a b r : string) :
  prefixFree ps = true ->
  stripAny ps a = Some r -> stripAny ps (a ++ b) = Some (r ++ b).
Proof.
  induction ps as [| p ps IH]; cbn; [discriminate |].
  intros Hfree. apply andb_prop in Hfree. destruct Hfree as [Hp Hfree].
  destruct (stripPrefix p a) as [r0 |] eqn:E.
  - intros H. injection H as <-.
    rewrite (stripPrefix_longer p a b r0 E). reflexivity.
  - intros H.
    destruct (stripPrefix p (a ++ b)) as [r1 |] eqn:E1; [| exact (IH Hfree H)].
    exfalso.
    destruct (stripPrefix_short p a b r1 E E1) as [x Hx].
    destruct (stripAny_in ps a r H) as [q [Hin Hq]].
    pose proof (stripPrefix_trans q a p r x Hq Hx) as Hqp.
    rewrite forallb_forall in Hp. specialize (Hp q Hin).
    rewrite Hqp in Hp. destruct (stripPrefix p q); discriminate.
Qed.

Lemma whiteSpace_free : prefixFree whiteSpace = true.
Proof. vm_compute. reflexivity. Qed.

Lemma whiteSpace_truthy : forallb truthy whiteSpace = true.
Proof. vm_compute. reflexivity. Qed.

Lemma stripWhiteSpace_longer (a b r : string) :
  stripWhiteSpace a = Some r -> stripWhiteSpace (a ++ b) = Some (r ++ b).
Proof. apply stripAny_longer, whiteSpace_free. Qed.

Lemma stripWhiteSpace_shorter (s r : string) :
  stripWhiteSpace s = Some r -> (String.length r < String.length s)%nat.
Proof.
  intros H. destruct (stripAny_in _ _ _ H) as [q [Hin Hq]].
  pose proof whiteSpace_truthy as Ht. rewrite forallb_forall in Ht.
  specialize (Ht q Hin).
  apply stripPrefix_append in Hq. subst s. rewrite length_append.
  destruct q; [discriminate | cbn; lia].
Qed.

Lemma stripWhiteSpace_empty : stripWhiteSpace "" = None.
Proof. vm_compute. reflexivity. Qed.

(** The steps allowed are enough: what is left starts with no white
    space. *)
Lemma trimStartWithin_done (n : nat) (s : string) :
  (String.length s <= n)%nat -> stripWhiteSpace (trimStartWithin n s) = None.
Proof.
  revert s. induction n as [| n IH]; intros s Hn; cbn [trimStartWithin].
  - destruct s; [exact stripWhiteSpace_empty | cbn [String.length] in Hn; lia].
  - destruct (stripWhiteSpace s) as [r |] eqn:E; [| exact E].
    apply IH. apply stripWhiteSpace_shorter in E. lia.
Qed.

Lemma trimStartWithin_enough (n m : nat) (s : string) :
  (String.length s <= n)%nat -> (String.length s <= m)%nat ->
  trimStartWithin n s = trimStartWithin m s.
Proof.
  revert m s. induction n as [| n IH]; intros m s Hn Hm.
  - destruct s; [| cbn [String.length] in Hn; lia].
    destruct m; cbn [trimStartWithin]; [reflexivity |].
    rewrite stripWhiteSpace_empty. reflexivity.
  - destruct m as [| m].
    + destruct s; [| cbn [String.length] in Hm; lia]. cbn [trimStartWithin].
      rewrite stripWhiteSpace_empty. reflexivity.
    + cbn [trimStartWithin]. destruct (stripWhiteSpace s) as [r |] eqn:E; [| reflexivity].
      apply stripWhiteSpace_shorter in E. apply IH; lia.
Qed.

Lemma trimStart_leading (s : string) : stripWhiteSpace (trimStart s) = None.
Proof. apply trimStartWithin_done. lia. Qed.

Lemma trimStart_fixed (s : string) :
  stripWhiteSpace s = None -> trimStart s = s.
Proof.
  intros H. unfold trimStart.
  destruct (String.length s); cbn [trimStartWithin]; [reflexivity |].
  rewrite H. reflexivity.
Qed.

Lemma trimStart_step (s r : string) :
  stripWhiteSpace s = Some r -> trimStart s = trimStart r.
Proof.
  intros H. pose proof (stripWhiteSpace_shorter s r H) as Hlen.
  unfold trimStart. destruct (String.length s) as [| n] eqn:E; [lia |].
  cbn [trimStartWithin]. rewrite H. apply trimStartWithin_enough; lia.
Qed.

Lemma trimStart_idempotent (s : string) : trimStart (trimStart s) = trimStart s.
Proof. apply trimStart_fixed, trimStart_leading. Qed.

(** White space before a text is trimmed away with it. *)
Lemma trimStart_append (a b : string) :
  allWhiteSpace a = true -> trimStart (a ++ b) = trimStart b.
Proof.
  remember (String.length a) as n eqn:Hn.
  revert a Hn. induction n as [n IH] using lt_wf_ind. intros a Hn Ha.
  destruct (stripWhiteSpace a) as [r |] eqn:E.
  - rewrite (trimStart_step (a ++ b) (r ++ b) (stripWhiteSpace_longer a b r E)).
    apply (IH (String.length r)); [| reflexivity |].
    + apply stripWhiteSpace_shorter in E. lia.
    + unfold allWhiteSpace in *. rewrite <- (trimStart_step a r E). exact Ha.
  - unfold allWhiteSpace in Ha. rewrite (trimStart_fixed a E) in Ha.
    destruct a; [reflexivity | discriminate].
Qed.

Lemma allWhiteSpace_append (a b : string) :
  allWhiteSpace a = true -> allWhiteSpace b = true -> allWhiteSpace (a ++ b) = true.
Proof.
  intros Ha Hb. unfold allWhiteSpace. rewrite (trimStart_append a b Ha). exact Hb.
Qed.

(** What [trimEnd] removes is white space. *)
Lemma trimEnd_split (s : string) :
  exists w, s = trimEnd s ++ w /\ allWhiteSpace w = true.
Proof.
  induction s as [| c s IH]; cbn [trimEnd].
  - exists "". split; reflexivity.
  - destruct (allWhiteSpace (String c s)) eqn:E.
    + exists (String c s). split; [reflexivity | exact E].
    + destruct IH as [w [Hs Hw]]. exists w. split; [| exact Hw].
      cbn. f_equal. exact Hs.
Qed.

Lemma trimEnd_idempotent (s : string) : trimEnd (trimEnd s) = trimEnd s.
Proof.
  induction s as [| c s IH]; cbn [trimEnd]; [reflexivity |].
  destruct (allWhiteSpace (String c s)) eqn:E; [reflexivity |].
  cbn [trimEnd].
  destruct (allWhiteSpace (String c (trimEnd s))) eqn:E'.
  - exfalso. destruct (trimEnd_split s) as [w [Hs Hw]].
    pose proof (allWhiteSpace_append _ _ E' Hw) as Hall.
    cbn [append] in Hall. rewrite <- Hs in Hall. congruence.
  - f_equal. exact IH.
Qed.

Lemma trimEnd_leading (s : string) :
  stripWhiteSpace s = None -> stripWhiteSpace (trimEnd s) = None.
Proof.
  intros H. destruct (stripWhiteSpace (trimEnd s)) as [r |] eqn:E; [| reflexivity].
  destruct (trimEnd_split s) as [w [Hs _]].
  pose proof (stripWhiteSpace_longer _ w _ E) as Hlong.
  rewrite <- Hs in Hlong. congruence.
Qed.

Lemma trim_leading (s : string) : trimStart (trim s) = trim s.
Proof.
  apply trimStart_fixed, trimEnd_leading, trimStart_leading.
Qed.

Lemma trim_trailing (s : string) : trimEnd (trim s) = trim s.
Proof. apply trimEnd_idempotent. Qed.

Lemma trim_idempotent (s : string) : trim (trim s) = trim s.
Proof.
  unfold trim at 1. rewrite trim_leading. apply trim_trailing.
Qed.

(** Trimming leaves nothing exactly of the texts of white space. *)
Lemma trim_empty (s : string) : trim s = "" <-> allWhiteSpace s = true.
Proof.
  unfold trim, allWhiteSpace. split.
  - intros H. destruct (trimStart s) as [| c u] eqn:E; [reflexivity |].
    exfalso. cbn [trimEnd] in H.
    destruct (allWhiteSpace (String c u)) eqn:E'; [| discriminate].
    unfold allWhiteSpace in E'. rewrite <- E, trimStart_idempotent, E in E'.
    discriminate.
  - intros H. destruct (trimStart s); [reflexivity | discriminate].
Qed.

Lemma isWhiteSpace_strips (c : ascii) (rest : string) :
  isWhiteSpace c = true -> stripWhiteSpace (String c rest) = Some rest.
Proof.
  destruct c as [[] [] [] [] [] [] [] []]; intros H;
    try discriminate H; reflexivity.
Qed.

(** Text that [blank] accepts is trimmed to nothing. *)
Lemma blank_trim (s : string) : blank s = true -> trim s = "".
Proof.
  intros H. apply trim_empty. unfold allWhiteSpace.
  induction s as [| c s IH]; [reflexivity |].
  cbn in H. apply andb_prop in H. destruct H as [Hc Hs].
  rewrite (trimStart_step _ _ (isWhiteSpace_strips c s Hc)). exact (IH Hs).
Qed.
End TrimFacts.

(* ================================================================== *)
(** ** The search bar and the home page *)

Module PageFacts.
Import JSString.
Local Open Scope string_scope.

Lemma truthy_empty (s : string) : truthy s = false <-> s = "".
Proof.
  destruct s; cbn; split; intros H; try reflexivity; discriminate.
Qed.

(** X15. [SearchBar.handleSubmit] calls [onSearch] for every text but
    white space, and with the trimmed text: not empty, with no white
    space at either end, and submitted again it is passed on as it is. *)
Theorem handleSubmit_passes_trimmed (query : string) :
  match SearchBar.handleSubmit query with
  | Some text =>
      allWhiteSpace query = false /\
      text = trim query /\
      text <> "" /\
      trimStart text = text /\
      trimEnd text = text /\
      SearchBar.handleSubmit text = Some text
  | None => allWhiteSpace query = true
  end.
Proof.
  unfold SearchBar.handleSubmit.
  destruct (truthy (trim query)) eqn:E.
  - assert (Hne : trim query <> "").
    { intros H. rewrite H in E. discriminate. }
    split.
    { destruct (allWhiteSpace query) eqn:Ea; [| reflexivity].
      apply TrimFacts.trim_empty in Ea. contradiction. }
    split; [reflexivity |]. split; [exact Hne |].
    split; [apply TrimFacts.trim_leading |].
    split; [apply TrimFacts.trim_trailing |].
    rewrite TrimFacts.trim_idempotent, E. reflexivity.
  - apply TrimFacts.trim_empty, truthy_empty, E.
Qed.

(** X16. Blank text starts no search: [SearchBar.handleSubmit] does not
    call [onSearch] for it, and [HomePage.handleSearch], called with it,
    leaves the page and the store as they are and fetches nothing. *)
Theorem blank_text_is_not_searched (query : string) (st : HomePage.state) :
  allWhiteSpace query = true ->
  SearchBar.handleSubmit query = None /\
  request HomePage.apply (HomePage.handleSearch query) st = None /\
  issued HomePage.apply (HomePage.handleSearch query) st = st.
Proof.
  intros H. apply TrimFacts.trim_empty in H.
  unfold SearchBar.handleSubmit, HomePage.handleSearch, request, issued.
  rewrite H. cbn. auto.
Qed.

Lemma blank_text_is_not_searched_witness :
  allWhiteSpace "   " = true /\
  blank "   " = true /\
  SearchBar.handleSubmit "   " = None.
Proof.
  split; [reflexivity |]. split; [reflexivity |].
  exact (proj1 (blank_text_is_not_searched "   " HomePage.initial eq_refl)).
Defined.

(** The state in which [handleSearch] leaves the page when it fetches. *)
Lemma handleSearch_issued (query : string) (st : HomePage.state) :
  allWhiteSpace query = false ->
  request HomePage.apply (HomePage.handleSearch query) st = Some HomePage.refetch /\
  issued HomePage.apply (HomePage.handleSearch query) st =
    {| HomePage.searchQuery := query;
       HomePage.isSearching := true;
       HomePage.store := useSearchStore.run (useSearchStore.setQuery query)
                                            (HomePage.store st) |}.
Proof.
  intros H.
  assert (Ht : truthy (trim query) = true).
  { destruct (truthy (trim query)) eqn:E; [reflexivity |].
    apply truthy_empty, TrimFacts.trim_empty in E. congruence. }
  unfold HomePage.handleSearch, request, issued. rewrite Ht. cbn. auto.
Qed.

(** X17. [HomePage.handleSearch] with text that is not blank fetches,
    and run alone it ends, fulfilled or rejected, with [isSearching]
    false and the text as the page's and the store's query; the store's
    results are those found, or unchanged when none came; the store's
    [loading], [error], [hasMore] and [total] are never written. *)
Theorem handleSearch_settles (query : string) (st : HomePage.state)
        (o : settled HomePage.QueryResult) :
  allWhiteSpace query = false ->
  let final := complete HomePage.apply (HomePage.handleSearch query) st o in
  let found := match o with
               | Fulfilled result =>
                   match HomePage.data result with
                   | Some d => HomePage.results d
                   | None => None
                   end
               | Rejected _ => None
               end in
  request HomePage.apply (HomePage.handleSearch query) st = Some HomePage.refetch /\
  HomePage.isSearching final = false /\
  HomePage.searchQuery final = query /\
  SearchState.query (HomePage.store final) = query /\
  SearchState.results (HomePage.store final) =
    match found with
    | Some articles => articles
    | None => SearchState.results (HomePage.store st)
    end /\
  SearchState.loading (HomePage.store final) = SearchState.loading (HomePage.store st) /\
  SearchState.error (HomePage.store final) = SearchState.error (HomePage.store st) /\
  SearchState.hasMore (HomePage.store final) = SearchState.hasMore (HomePage.store st) /\
  SearchState.total (HomePage.store final) = SearchState.total (HomePage.store st).
Proof.
  intros H final found.
  split; [exact (proj1 (handleSearch_issued query st H)) |].
  assert (Ht : truthy (trim query) = true).
  { destruct (truthy (trim query)) eqn:E; [reflexivity |].
    apply truthy_empty, TrimFacts.trim_empty in E. congruence. }
  subst final found.
  unfold complete, settle, issued, HomePage.handleSearch. rewrite Ht.
  destruct o as [[[[found] |]] | e]; try destruct found; cbn; repeat split.
Qed.

Lemma handleSearch_settles_witness :
  allWhiteSpace "AI" = false /\
  SearchState.results
    (HomePage.store
       (complete HomePage.apply (HomePage.handleSearch "AI") HomePage.initial
          (Fulfilled (HomePage.mkResult
                        (Some (HomePage.mkData (Some [Sample.first])))))))
    = [Sample.first] /\
  SearchState.total
    (HomePage.store
       (complete HomePage.apply (HomePage.handleSearch "AI") HomePage.initial
          (Fulfilled (HomePage.mkResult
                        (Some (HomePage.mkData (Some [Sample.first])))))))
    = 0.
Proof.
  split; [reflexivity |].
  destruct (handleSearch_settles "AI" HomePage.initial
              (Fulfilled (HomePage.mkResult
                            (Some (HomePage.mkData (Some [Sample.first])))))
              eq_refl) as [_ [_ [_ [_ [Hres [_ [_ [_ Htot]]]]]]]].
  split; [exact Hres | exact Htot].
Defined.

(** X18. What the search bar submits, the home page searches: the
    guard of [handleSearch] never refuses the text [handleSubmit] passes
    on, and that text, the trimmed input, becomes the store's query. *)
Theorem submitted_text_is_searched (input text : string) (st : HomePage.state) :
  SearchBar.handleSubmit input = Some text ->
  request HomePage.apply (HomePage.handleSearch text) st = Some HomePage.refetch /\
  SearchState.query
    (HomePage.store (issued HomePage.apply (HomePage.handleSearch text) st))
    = trim input /\
  HomePage.isSearching (issued HomePage.apply (HomePage.handleSearch text) st) = true.
Proof.
  intros H.
  pose proof (handleSubmit_passes_trimmed input) as Hs. rewrite H in Hs.
  destruct Hs as [_ [Htext [_ [_ [_ Hagain]]]]].
  assert (Hw : allWhiteSpace text = false).
  { pose proof (handleSubmit_passes_trimmed text) as Hs. rewrite Hagain in Hs.
    exact (proj1 Hs). }
  destruct (handleSearch_issued text st Hw) as [Hreq Hiss].
  rewrite Hreq, Hiss. cbn. rewrite Htext. auto.
Qed.

Lemma submitted_text_is_searched_witness :
  SearchBar.handleSubmit "  AI " = Some "AI" /\
  SearchState.query
    (HomePage.store (issued HomePage.apply (HomePage.handleSearch "AI")
                            HomePage.initial))
    = "AI".
Proof.
  split; [reflexivity |].
  exact (proj1 (proj2 (submitted_text_is_searched "  AI " "AI" HomePage.initial
                         eq_refl))).
Defined.
End PageFacts.

(* ================================================================== *)
(** ** The article list *)

Module ListFacts.
Import ArticleList.

(** X19. [ArticleList] shows the error panel exactly when it is not
    loading and the error is a text that is not empty: while loading the
    error is hidden, and an error with an empty text is not shown. *)
Theorem error_view_shown {H : Type} (props : Props H) (message : string) :
  ArticleList props = ErrorView message <->
  defaultArg false (loading props) = false /\
  error props = Some message /\
  message <> "".
Proof.
  unfold ArticleList.
  destruct (defaultArg false (loading props)).
  - split; [discriminate | intros [Hl _]; discriminate].
  - destruct (error props) as [[| c rest] |].
    + destruct (List.length (articles props) =? 0)%nat;
        (split; [discriminate | intros [_ [He Hm]]; injection He as <-; congruence]).
    + split.
      * intros Hv. injection Hv as <-. repeat split. discriminate.
      * intros [_ [He _]]. injection He as <-. reflexivity.
    + destruct (List.length (articles props) =? 0)%nat;
        (split; [discriminate | intros [_ [He _]]; discriminate]).
Qed.

(** X20. The "more" button is rendered exactly when the list is not
    loading, shows no error, has at least one article, [hasMore] is
    true and a handler is given; it carries that handler and is disabled
    while more is loading. *)
Theorem more_button_shown {H : Type} (props : Props H) (b : Button H) :
  moreButton (ArticleList props) = Some b <->
  defaultArg false (loading props) = false /\
  (error props = None \/ error props = Some EmptyString) /\
  articles props <> [] /\
  hasMore props = Some true /\
  exists h,
    onLoadMore props = Some h /\
    b = mkButton h (defaultArg false (loadingMore props))
          (if defaultArg false (loadingMore props) then LoadingLabel sm
           else MoreLabel).
Proof.
  unfold ArticleList.
  destruct (defaultArg false (loading props)).
  { split; [discriminate | intros [Hl _]; discriminate]. }
  destruct (error props) as [[| c rest] |].
  2: { split; [discriminate | intros [_ [[He | He] _]]; discriminate]. }
  all: destruct (articles props) as [| a l]; cbn;
    [ split; [discriminate | intros [_ [_ [Hne _]]]; congruence] |];
    destruct (hasMore props) as [[|] |]; cbn;
    try (split; [discriminate | intros [_ [_ [_ [Hm _]]]]; discriminate]);
    destruct (onLoadMore props) as [h |]; cbn;
    try (split; [discriminate
                | intros [_ [_ [_ [_ [h' [Hh _]]]]]]; discriminate]);
    (split;
     [ intros Hb; injection Hb as <-; repeat split; auto; try discriminate;
       exists h; split; reflexivity
     | intros [_ [_ [_ [_ [h' [Hh ->]]]]]]; injection Hh as <-; reflexivity ]).
Qed.

Lemma error_view_shown_witness :
  ArticleList ListSample.failed = ErrorView "Network Error".
Proof.
  apply (proj2 (error_view_shown ListSample.failed "Network Error")).
  repeat split. discriminate.
Defined.

Lemma more_button_shown_witness :
  moreButton (ArticleList ListSample.paging) =
    Some (mkButton "loadMore" false MoreLabel).
Proof.
  apply (proj2 (more_button_shown ListSample.paging
                  (mkButton "loadMore" false MoreLabel))).
  repeat split; auto; try discriminate.
  exists "loadMore". split; reflexivity.
Defined.
End ListFacts.
